(** * GitHunter: the candidate generator and the hunt loop of the page component

    A shallow embedding of the logical core of the page component
    ([GitHunterPage]): the username generator, the status classification
    of the remote check, the hunt loop with its cancellation signal, and
    the start and stop handlers.

    Strings are Rocq strings (one [ascii] per code unit, so the inputs
    range over code units below 256); JavaScript numbers that hold
    counters and lengths are integers in [Z]. *)

From Stdlib Require Import String Ascii List ZArith NArith Lia Bool Arith.
From Stdlib Require Import DecimalString DecimalPos DecimalZ.
From Stdlib Require Import SpecFloat.
Import ListNotations.
Open Scope string_scope.

(** ** The string built-ins the component calls *)

Module JS.

(** White space and line terminators of the language, as far as they
    fit one 8-bit code unit: TAB, LF, VT, FF, CR, SP and NBSP. *)
Definition isWhiteSpace (c : ascii) : bool :=
  let n := N_of_ascii c in
  (((9 <=? n) && (n <=? 13)) || (n =? 32) || (n =? 160))%N.

Fixpoint trimStart (s : string) : string :=
  match s with
  | EmptyString => EmptyString
  | String c r => if isWhiteSpace c then trimStart r else s
  end.

Fixpoint trimEnd (s : string) : string :=
  match s with
  | EmptyString => EmptyString
  | String c r =>
      match trimEnd r with
      | EmptyString =>
          if isWhiteSpace c then EmptyString else String c EmptyString
      | r' => String c r'
      end
  end.

(** [s.trim()] *)
Definition trim (s : string) : string := trimEnd (trimStart s).

(** [s.split(sep)] for a separator of one character; the empty string
    splits into one empty piece. *)
Fixpoint split (sep : ascii) (s : string) : list string :=
  match s with
  | EmptyString => [EmptyString]
  | String c r =>
      if Ascii.eqb c sep then EmptyString :: split sep r
      else match split sep r with
           | piece :: pieces => String c piece :: pieces
           | [] => [String c EmptyString]
           end
  end.

(** [s.includes(sub)]: [sub] occurs in [s] as a substring. *)
Fixpoint includes (s sub : string) : bool :=
  prefix sub s
  || match s with
     | EmptyString => false
     | String _ r => includes r sub
     end.

(** [s.charAt(i)]: the empty string when [i] is out of range. *)
Definition charAt (s : string) (i : nat) : string :=
  match get i s with
  | Some c => String c EmptyString
  | None => EmptyString
  end.

Fixpoint removeChar (c : ascii) (s : string) : string :=
  match s with
  | EmptyString => EmptyString
  | String a r =>
      if Ascii.eqb a c then removeChar c r else String a (removeChar c r)
  end.

(** [s.replace(new RegExp(pattern, 'g'), "")] for the patterns the
    component builds: [pattern] is one decimal digit (see the filter in
    [excludedDigits]), a regular expression that matches that literal
    character. Every occurrence is removed. *)
Definition replaceAllWithEmpty (pattern s : string) : string :=
  match pattern with
  | String c EmptyString => removeChar c s
  | _ => s
  end.

Definition digitValue (c : ascii) : option Z :=
  let n := Z.of_N (N_of_ascii c) in
  if (48 <=? n)%Z && (n <=? 57)%Z then Some (n - 48)%Z
  else if (97 <=? n)%Z && (n <=? 102)%Z then Some (n - 87)%Z
  else if (65 <=? n)%Z && (n <=? 70)%Z then Some (n - 55)%Z
  else None.

Fixpoint parseDigits (radix : Z) (s : string) (acc : option Z) : option Z :=
  match s with
  | EmptyString => acc
  | String c r =>
      match digitValue c with
      | Some d =>
          if (d <? radix)%Z
          then parseDigits radix r
                 (Some (radix * match acc with Some a => a | None => 0 end + d)%Z)
          else acc
      | None => acc
      end
  end.

(** [parseInt(s)] without a radix argument; [None] is NaN. *)
Definition parseInt (s : string) : option Z :=
  let s := trimStart s in
  let '(sign, s) :=
    match s with
    | String "-" r => ((-1)%Z, r)
    | String "+" r => (1%Z, r)
    | _ => (1%Z, s)
    end in
  let '(radix, s) :=
    match s with
    | String "0" (String "x" r) => (16%Z, r)
    | String "0" (String "X" r) => (16%Z, r)
    | _ => (10%Z, s)
    end in
  option_map (Z.mul sign) (parseDigits radix s None).

(** The decimal rendering of an integer inside a template literal. *)
Definition numberToString (n : Z) : string :=
  NilZero.string_of_int (Z.to_int n).

End JS.

(** ** Numbers

    Counters and lengths are small integers and are kept in [Z]. The
    one product of a non-integer, [Math.random() * availableChars.length]
    (l.79), is computed as the code computes it, in binary64: the
    operations are those of the standard library's specification of
    IEEE 754 arithmetic, at precision 53 and maximal exponent 1024. *)

Module Binary64.

Definition prec : Z := 53.
Definition emax : Z := 1024.

(** The double nearest to [m * 2^e] (that number itself when [m] has at
    most 53 bits and [e] is in range). *)
Definition ofZ (m e : Z) : spec_float := binary_normalize prec emax m e false.

(** [x * y] *)
Definition mul (x y : spec_float) : spec_float := SFmul prec emax x y.

(** [Math.floor(x)] of a finite [x], as an integer. The loop takes the
    floor of products of a number below 1 and a string length only,
    which are finite; other arguments give 0 here. *)
Definition floor (x : spec_float) : Z :=
  match x with
  | S754_finite s m e =>
      let v := if s then Zneg m else Zpos m in
      if (0 <=? e)%Z then (v * 2 ^ e)%Z else (v / 2 ^ (- e))%Z
  | _ => 0%Z
  end.

End Binary64.

(** ** Data of the component *)

Inductive LogType := info | success | error | accent | muted.

Record LogMessage := mkLog {
  id : string;
  text : string;
  type : LogType
}.

Record AvailableUsername := mkAvailable {
  timestamp : string;
  username : string
}.

Record Stats := mkStats {
  attempts : Z;
  available : Z;
  taken : Z
}.

(** What [checkUsernameAvailability] resolves to. *)
Inductive CheckResult :=
  | r_available | r_taken | r_throttled | r_error | r_aborted.

(** How a [fetch] settles: a response with its status code, or a
    rejection with the name and message of the error thrown. *)
Inductive FetchOutcome :=
  | Response (status : Z)
  | Rejected (name message : string).

(** The calls the loop makes to the platform, in the order made, and the
    value bound to [result] at each check. *)
Inductive Event :=
  | EvFetch (url : string)
  | EvResult (result : CheckResult)
  | EvDelay (ms : Z).

Definition GITHUB_API_BASE_URL : string := "https://api.github.com/users/".
Definition MIN_USERNAME_LENGTH : Z := 1.
Definition MAX_USERNAME_LENGTH : Z := 39.
Definition USER_INPUT_MIN_LENGTH : Z := 3.

(** The state cells of the component ([useState], [useRef]) followed by
    the bookkeeping of the platform: how many values [crypto.randomUUID]
    and [Math.random] have handed out, and the trace of platform calls.
    [abortController] is [abortControllerRef.current]: [None] for [null],
    [Some b] for a controller whose [signal.aborted] is [b]. *)
Record State := mkState {
  usernameLength : string;
  excludeNumbers : bool;
  specificNumbersToExclude : string;
  isHunting : bool;
  availableUsernames : list AvailableUsername;
  logMessages : list LogMessage;
  stats : Stats;
  isThrottled : bool;
  abortController : option bool;
  isLoading : bool;
  uuidCalls : nat;
  randomCalls : nat;
  trace : list Event
}.

(** The values of the state cells that the closures of one render see.
    [huntUsernames] and [generateUsername] are created by a render and
    keep reading that render's constants while the loop runs; the setters
    change the cells, not these. *)
Record Render := mkRender {
  seen_usernameLength : string;
  seen_excludeNumbers : bool;
  seen_specificNumbersToExclude : string;
  seen_isThrottled : bool
}.

Definition render (s : State) : Render :=
  {| seen_usernameLength := usernameLength s;
     seen_excludeNumbers := excludeNumbers s;
     seen_specificNumbersToExclude := specificNumbersToExclude s;
     seen_isThrottled := isThrottled s |}.

Definition initialState : State :=
  {| usernameLength := "3";
     excludeNumbers := false;
     specificNumbersToExclude := "";
     isHunting := false;
     availableUsernames := [];
     logMessages := [];
     stats := mkStats 0 0 0;
     isThrottled := false;
     abortController := None;
     isLoading := false;
     uuidCalls := 0;
     randomCalls := 0;
     trace := [] |}.

(** ** Alphabet derivation (shared by [generateUsername] and
    [handleStartHunting]) *)

Definition lowercase : string := "abcdefghijklmnopqrstuvwxyz".
Definition digits : string := "0123456789".

(** [specificNumbersToExclude.split(',').map(d => d.trim())
      .filter(d => d.length === 1 && "0123456789".includes(d))] *)
Definition excludedDigits (specific : string) : list string :=
  filter (fun d => Nat.eqb (String.length d) 1 && JS.includes digits d)
         (map JS.trim (JS.split "," specific)).

(** [excluded.forEach(digit => { numbers = numbers.replace(new RegExp(digit, 'g'), ""); })] *)
Definition removeExcluded (excluded : list string) (numbers : string) : string :=
  fold_left (fun numbers digit => JS.replaceAllWithEmpty digit numbers)
            excluded numbers.

Definition numbersToInclude (specific : string) : string :=
  if String.eqb (JS.trim specific) EmptyString then digits
  else removeExcluded (excludedDigits specific) digits.

Definition availableChars (r : Render) : string :=
  lowercase ++
  (if negb (seen_excludeNumbers r)
   then numbersToInclude (seen_specificNumbersToExclude r)
   else EmptyString).

(** ** A state monad for the component's effects *)

Definition M (A : Type) : Type := State -> A * State.

Definition ret {A} (a : A) : M A := fun s => (a, s).

Definition bind {A B} (m : M A) (k : A -> M B) : M B :=
  fun s => let (a, s') := m s in k a s'.

Declare Scope hunt_scope.
Delimit Scope hunt_scope with hunt.
Notation "x <- m ;; k" := (bind m (fun x => k))
  (at level 61, m at next level, right associativity) : hunt_scope.
Notation "m ;; k" := (bind m (fun _ => k))
  (at level 61, right associativity) : hunt_scope.
Open Scope hunt_scope.

(** The setters returned by [useState], and the assignments to the ref. *)

Definition setIsHunting (b : bool) : M unit := fun s =>
  (tt, mkState (usernameLength s) (excludeNumbers s) (specificNumbersToExclude s)
         b (availableUsernames s) (logMessages s) (stats s) (isThrottled s)
         (abortController s) (isLoading s) (uuidCalls s) (randomCalls s) (trace s)).

Definition setAvailableUsernames
    (f : list AvailableUsername -> list AvailableUsername) : M unit := fun s =>
  (tt, mkState (usernameLength s) (excludeNumbers s) (specificNumbersToExclude s)
         (isHunting s) (f (availableUsernames s)) (logMessages s) (stats s)
         (isThrottled s) (abortController s) (isLoading s) (uuidCalls s)
         (randomCalls s) (trace s)).

Definition setLogMessages (f : list LogMessage -> list LogMessage) : M unit :=
  fun s =>
  (tt, mkState (usernameLength s) (excludeNumbers s) (specificNumbersToExclude s)
         (isHunting s) (availableUsernames s) (f (logMessages s)) (stats s)
         (isThrottled s) (abortController s) (isLoading s) (uuidCalls s)
         (randomCalls s) (trace s)).

Definition setStats (v : Stats) : M unit := fun s =>
  (tt, mkState (usernameLength s) (excludeNumbers s) (specificNumbersToExclude s)
         (isHunting s) (availableUsernames s) (logMessages s) v (isThrottled s)
         (abortController s) (isLoading s) (uuidCalls s) (randomCalls s) (trace s)).

Definition setIsThrottled (b : bool) : M unit := fun s =>
  (tt, mkState (usernameLength s) (excludeNumbers s) (specificNumbersToExclude s)
         (isHunting s) (availableUsernames s) (logMessages s) (stats s) b
         (abortController s) (isLoading s) (uuidCalls s) (randomCalls s) (trace s)).

Definition setAbortController (c : option bool) : M unit := fun s =>
  (tt, mkState (usernameLength s) (excludeNumbers s) (specificNumbersToExclude s)
         (isHunting s) (availableUsernames s) (logMessages s) (stats s)
         (isThrottled s) c (isLoading s) (uuidCalls s) (randomCalls s) (trace s)).

Definition setIsLoading (b : bool) : M unit := fun s =>
  (tt, mkState (usernameLength s) (excludeNumbers s) (specificNumbersToExclude s)
         (isHunting s) (availableUsernames s) (logMessages s) (stats s)
         (isThrottled s) (abortController s) b (uuidCalls s) (randomCalls s)
         (trace s)).

Definition observe (e : Event) : M unit := fun s =>
  (tt, mkState (usernameLength s) (excludeNumbers s) (specificNumbersToExclude s)
         (isHunting s) (availableUsernames s) (logMessages s) (stats s)
         (isThrottled s) (abortController s) (isLoading s) (uuidCalls s)
         (randomCalls s) (trace s ++ [e])%list).

(** [signal.aborted], for the signal of the controller in the ref. *)
Definition signalAborted : M bool := fun s =>
  (match abortController s with Some b => b | None => false end, s).

Definition aborted (s : State) : bool := fst (signalAborted s).

Section Component.

(** The platform's sources of fresh values: the [n]-th draw of
    [Math.random] is [random n / 2^53], and the [n]-th identifier of
    [crypto.randomUUID] is [randomUUID n]. *)
Variable random : nat -> Z.
Variable randomUUID : nat -> string.

Definition cryptoRandomUUID : M string := fun s =>
  (randomUUID (uuidCalls s),
   mkState (usernameLength s) (excludeNumbers s) (specificNumbersToExclude s)
     (isHunting s) (availableUsernames s) (logMessages s) (stats s)
     (isThrottled s) (abortController s) (isLoading s) (S (uuidCalls s))
     (randomCalls s) (trace s)).

Definition mathRandom : M Z := fun s =>
  (random (randomCalls s),
   mkState (usernameLength s) (excludeNumbers s) (specificNumbersToExclude s)
     (isHunting s) (availableUsernames s) (logMessages s) (stats s)
     (isThrottled s) (abortController s) (isLoading s) (uuidCalls s)
     (S (randomCalls s)) (trace s)).

(** [Math.floor(x * n)] for the double [x = k / 2^53] and the integer
    [n]: the product is the binary64 product, rounded to nearest, ties
    to even, and the floor is taken of the rounded product. *)
Definition floorTimes (k : Z) (n : nat) : nat :=
  Z.to_nat (Binary64.floor
              (Binary64.mul (Binary64.ofZ k (-53)) (Binary64.ofZ (Z.of_nat n) 0))).

Definition addLog (text : string) (type : LogType) : M unit :=
  uuid <- cryptoRandomUUID ;;
  setLogMessages (fun prevLogs => (prevLogs ++ [mkLog uuid text type])%list).

(** The body of the [for] loop of [generateUsername], [n] rounds. *)
Fixpoint drawChars (chars : string) (n : nat) (result : string) : M string :=
  match n with
  | O => ret result
  | S n' =>
      k <- mathRandom ;;
      drawChars chars n'
        (result ++ JS.charAt chars (floorTimes k (String.length chars)))
  end.

Definition ERROR_NO_CHARS : string := "ERROR_NO_CHARS".

Definition generateUsername (r : Render) (length : Z) : M string :=
  let availableChars := availableChars r in
  if Nat.eqb (String.length availableChars) 0 then
    addLog "Internal Error: No characters available for username generation. Adjust settings." error ;;
    ret ERROR_NO_CHARS
  else drawChars availableChars (Z.to_nat length) EmptyString.

(** What the environment does during one round of the loop: how the
    [fetch] settles, what [format(new Date(), ...)] reads, and whether
    the user presses Stop while the loop is suspended at each of its
    four waits. *)
Record Iteration := mkIteration {
  duringPause : bool;
  fetched : FetchOutcome;
  duringFetch : bool;
  now : string;
  duringErrorDelay : bool;
  duringGap : bool
}.

Definition abort : M unit := fun s =>
  match abortController s with
  | Some _ => setAbortController (Some true) s
  | None => (tt, s)
  end.

Definition handleStopHunting : M unit :=
  abort ;;
  setIsHunting false ;;
  setIsLoading false ;;
  setIsThrottled false ;;
  addLog "Hunting stopped by user." info.

(** The Stop button (l.326-335): the page renders it only while
    [isHunting] is true, and renders the Start button in its place
    otherwise, so a click on Stop reaches [handleStopHunting] only in a
    state that is hunting. *)
Definition clickStop : M unit := fun s =>
  if isHunting s then handleStopHunting s else (tt, s).

(** Suspension of the loop: the user's click on Stop, if any, runs its
    handler before the loop goes on. One hunt is described: a Start
    pressed while a stopped loop is still suspended, which makes two
    loops overlap, is outside this model. *)
Definition suspended (stop : bool) : M unit :=
  if stop then handleStopHunting else ret tt.

(** [await delay(ms)] *)
Definition delay (ms : Z) (stop : bool) : M unit :=
  observe (EvDelay ms) ;;
  suspended stop.

Definition checkUsernameAvailability (username : string)
    (outcome : FetchOutcome) (stop : bool) : M CheckResult :=
  observe (EvFetch (GITHUB_API_BASE_URL ++ username)) ;;
  suspended stop ;;
  match outcome with
  | Response status =>
      if (status =? 404)%Z then ret r_available
      else if (status =? 200)%Z then ret r_taken
      else if (status =? 403)%Z || (status =? 429)%Z then ret r_throttled
      else
        addLog ("Unexpected status code " ++ JS.numberToString status
                ++ " for " ++ username) error ;;
        ret r_error
  | Rejected name message =>
      if String.eqb name "AbortError" then ret r_aborted
      else
        addLog ("Request failed for " ++ username ++ ": " ++ message) error ;;
        ret r_error
  end.

(** The [let] variables of [huntUsernames]. *)
Record Locals := mkLocals {
  currentAttempts : Z;
  currentAvailable : Z;
  currentTaken : Z
}.

Definition statsOf (l : Locals) : Stats :=
  {| attempts := currentAttempts l;
     available := currentAvailable l;
     taken := currentTaken l |}.

Inductive Flow := Continue | Break.

(** Lines 120-126: the pause; the result says whether the loop breaks. *)
Definition pauseIfThrottled (r : Render) (it : Iteration) : M bool :=
  if seen_isThrottled r then
    addLog "Rate limit likely hit. Pausing for 60 seconds..." error ;;
    delay 60000 (duringPause it) ;;
    setIsThrottled false ;;
    addLog "Resuming hunt..." info ;;
    signalAborted
  else ret false.

(** Lines 143-173: what the loop does once the check has returned. *)
Definition afterCheck (username : string) (result : CheckResult)
    (it : Iteration) (l : Locals) : M (Flow * Locals) :=
  cancelled <- signalAborted ;;
  if cancelled then
    addLog "Hunt aborted by user." info ;;
    ret (Break, l)
  else
    l <- match result with
         | r_available =>
             let l := mkLocals (currentAttempts l) (currentAvailable l + 1)
                        (currentTaken l) in
             setAvailableUsernames
               (fun prev => (prev ++ [mkAvailable (now it) username])%list) ;;
             addLog ("AVAILABLE: " ++ username) accent ;;
             ret l
         | r_taken =>
             ret (mkLocals (currentAttempts l) (currentAvailable l)
                    (currentTaken l + 1))
         | r_throttled =>
             setIsThrottled true ;;
             ret l
         | r_error =>
             delay 5000 (duringErrorDelay it) ;;
             ret l
         | r_aborted => ret l
         end ;;
    setStats (statsOf l) ;;
    delay 1500 (duringGap it) ;;
    ret (Continue, l).

(** Lines 120-141: the round up to the return of the check. [None]
    when the loop breaks before a check is made. *)
Definition untilChecked (r : Render) (length : Z) (it : Iteration)
    (l : Locals) : M (option (string * CheckResult * Locals)) :=
  stop <- pauseIfThrottled r it ;;
  if stop then ret None
  else
    username <- generateUsername r length ;;
    if String.eqb username ERROR_NO_CHARS then
      addLog "Stopping hunt: No characters available for generation based on current settings." error ;;
      cancelled <- signalAborted ;;
      (if negb cancelled then abort else ret tt) ;;
      ret None
    else
      let l := mkLocals (currentAttempts l + 1) (currentAvailable l)
                 (currentTaken l) in
      addLog ("Checking: " ++ username) muted ;;
      setStats (statsOf l) ;;
      result <- checkUsernameAvailability username (fetched it) (duringFetch it) ;;
      observe (EvResult result) ;;
      ret (Some (username, result, l)).

(** One round of the [while] body. *)
Definition iteration (r : Render) (length : Z) (it : Iteration)
    (l : Locals) : M (Flow * Locals) :=
  checked <- untilChecked r length it l ;;
  match checked with
  | None => ret (Break, l)
  | Some (username, result, l) => afterCheck username result it l
  end.

(** Whether the [while] loop has been left, or is still turning when
    the script of the environment ends. *)
Inductive Outcome := Exited | Running.

Fixpoint huntLoop (r : Render) (length : Z) (script : list Iteration)
    (l : Locals) : M (Outcome * Locals) :=
  cancelled <- signalAborted ;;
  if cancelled then ret (Exited, l)
  else
    match script with
    | [] => ret (Running, l)
    | it :: rest =>
        step <- iteration r length it l ;;
        match step with
        | (Break, l) => ret (Exited, l)
        | (Continue, l) => huntLoop r length rest l
        end
    end.

(** Lines 104-116. *)
Definition huntPrologue (length : Z) : M Locals :=
  setIsLoading true ;;
  setIsHunting true ;;
  setLogMessages (fun _ => []) ;;
  setStats (mkStats 0 0 0) ;;
  addLog ("Starting hunt for usernames of length "
          ++ JS.numberToString length ++ "...") info ;;
  setAbortController (Some false) ;;
  ret (mkLocals 0 0 0).

(** The [finally] block. *)
Definition huntEpilogue : M unit :=
  setIsHunting false ;;
  setIsLoading false ;;
  cancelled <- signalAborted ;;
  if negb cancelled then addLog "Hunt finished or stopped." info else ret tt.

(** [huntUsernames]: prologue, loop, [finally]. Nothing in the loop body
    throws ([checkUsernameAvailability] catches the rejection of its
    [fetch]), so the [catch] block is never entered. When the script of
    the environment ends while the loop is still turning, the outcome is
    [Running]: the function is suspended in the loop and the [finally]
    block has not run. *)
Definition huntUsernames (r : Render) (length : Z)
    (script : list Iteration) : M (Outcome * Locals) :=
  l <- huntPrologue length ;;
  end_ <- huntLoop r length script l ;;
  match fst end_ with
  | Exited => huntEpilogue ;; ret end_
  | Running => ret end_
  end.

(** [isNaN(len) || len < USER_INPUT_MIN_LENGTH || len > MAX_USERNAME_LENGTH] *)
Definition invalidLength (len : option Z) : bool :=
  match len with
  | None => true
  | Some len => (len <? USER_INPUT_MIN_LENGTH)%Z || (len >? MAX_USERNAME_LENGTH)%Z
  end.

(** The handler re-derives the alphabet with the statements of
    [generateUsername] (lines 196-209 repeat lines 55-69), so both use
    [availableChars]. *)
Definition handleStartHunting (r : Render) (script : list Iteration) : M unit :=
  let len := JS.parseInt (seen_usernameLength r) in
  if invalidLength len then
    addLog ("Please enter a valid length between "
            ++ JS.numberToString USER_INPUT_MIN_LENGTH ++ " and "
            ++ JS.numberToString MAX_USERNAME_LENGTH ++ ". GitHub min is "
            ++ JS.numberToString MIN_USERNAME_LENGTH ++ ".") error
  else
    let len := match len with Some len => len | None => 0%Z end in
    let availableChars := availableChars r in
    if Nat.eqb (String.length availableChars) 0 then
      addLog "Error: No characters available for username generation. Adjust exclusion settings." error
    else
      (if (len >? 0)%Z && Nat.ltb (String.length availableChars) 2 && (len >? 1)%Z
       then addLog "Warning: The available character set is very small. This may result in many repeated checks or slow progress." info
       else ret tt) ;;
      huntUsernames r len script ;;
      ret tt.

(** Lines 232-249. The handler reads [availableUsernames] as its render
    saw it ([seen]). What it hands to the browser is returned: the name
    given to [link.download] and the text put in the [Blob]; [None] when
    it refuses. *)
Definition downloadLine (u : AvailableUsername) : string :=
  timestamp u ++ " - [GitHub-Username] Username Available: " ++ username u.

Definition newline : string := String (ascii_of_nat 10) EmptyString.

Definition handleDownloadUsernames (seen : list AvailableUsername)
    : M (option (string * string)) :=
  if Nat.eqb (List.length seen) 0 then
    addLog "No usernames to download." error ;;
    ret None
  else
    let fileContent := String.concat newline (map downloadLine seen) in
    addLog "Usernames file download initiated." success ;;
    ret (Some ("available-github-usernames.txt", fileContent)).

End Component.

(** * Vocabulary of the statements *)

Definition chars (s : string) : list ascii := list_ascii_of_string s.

Definition isDigit (c : ascii) : bool :=
  let n := N_of_ascii c in ((48 <=? n) && (n <=? 57))%N.

Definition isLower (c : ascii) : bool :=
  let n := N_of_ascii c in ((97 <=? n) && (n <=? 122))%N.

Fixpoint filterString (keep : ascii -> bool) (s : string) : string :=
  match s with
  | EmptyString => EmptyString
  | String a r =>
      if keep a then String a (filterString keep r) else filterString keep r
  end.

(** The characters an exclusion list leaves in place. *)
Definition kept (excluded : list string) (c : ascii) : bool :=
  negb (existsb (String.eqb (String c EmptyString)) excluded).

(** The well-formed tokens of an exclusion input, joined by commas again. *)
Definition wellFormedOnly (specific : string) : string :=
  String.concat "," (excludedDigits specific).

Definition withExclusions (r : Render) (specific : string) : Render :=
  mkRender (seen_usernameLength r) (seen_excludeNumbers r) specific
    (seen_isThrottled r).

(** The state after [n] further draws of [Math.random]. *)
Definition advance (n : nat) (s : State) : State :=
  mkState (usernameLength s) (excludeNumbers s) (specificNumbersToExclude s)
    (isHunting s) (availableUsernames s) (logMessages s) (stats s)
    (isThrottled s) (abortController s) (isLoading s) (uuidCalls s)
    (n + randomCalls s) (trace s).

(** The string that [n] rounds of the [for] loop of [generateUsername]
    build from the draws numbered [from], [from + 1], ... *)
Fixpoint drawn (random : nat -> Z) (alphabet : string) (n from : nat) : string :=
  match n with
  | O => EmptyString
  | S n' =>
      JS.charAt alphabet (floorTimes (random from) (String.length alphabet))
      ++ drawn random alphabet n' (S from)
  end.

Definition candidate (random : nat -> Z) (r : Render) (length : Z) (from : nat)
    : string :=
  drawn random (availableChars r) (Z.to_nat length) from.

(** [Keeps R m]: running [m] relates the state before to the state after. *)
Definition Keeps (R : State -> State -> Prop) {A} (m : M A) : Prop :=
  forall s, R s (snd (m s)).

(** [extends s s']: the found list of [s'] is that of [s] with entries
    appended. *)
Definition extends (s s' : State) : Prop :=
  exists added, availableUsernames s' = (availableUsernames s ++ added)%list.

(** [unannounced s s']: the found list is the same, and the log of [s']
    is that of [s] with entries appended, none of which announces an
    available name (type [accent], the type of the "AVAILABLE" entries;
    taken names are never logged). *)
Definition unannounced (s s' : State) : Prop :=
  availableUsernames s' = availableUsernames s
  /\ exists added, logMessages s' = (logMessages s ++ added)%list
                   /\ Forall (fun m => type m <> accent) added.

(** A round in which the remote answers with [status] and the user does
    nothing; [t] is what the clock reads. *)
Definition undisturbed (status : Z) (t : string) : Iteration :=
  mkIteration false (Response status) false t false false.

(** The results bound at the checks of a trace, and the URLs requested. *)
Definition results (tr : list Event) : list CheckResult :=
  flat_map (fun e => match e with EvResult x => [x] | _ => [] end) tr.

Definition requests (tr : list Event) : list string :=
  flat_map (fun e => match e with EvFetch url => [url] | _ => [] end) tr.

(** What a processed result does to the loop's counters and to the found
    list, beyond the attempt counted before the check. *)
Definition counted (result : CheckResult) (l : Locals) : Locals :=
  match result with
  | r_available =>
      mkLocals (currentAttempts l + 1) (currentAvailable l + 1) (currentTaken l)
  | r_taken =>
      mkLocals (currentAttempts l + 1) (currentAvailable l) (currentTaken l + 1)
  | _ => mkLocals (currentAttempts l + 1) (currentAvailable l) (currentTaken l)
  end.

Definition recorded (result : CheckResult) (t name : string) : list AvailableUsername :=
  match result with
  | r_available => [mkAvailable t name]
  | _ => []
  end.

Definition stoppedByUser (m : LogMessage) : bool :=
  String.eqb (text m) "Hunting stopped by user.".

(** How many "stopped by user" events the log holds. *)
Definition stoppedEvents (s : State) : nat :=
  List.length (filter stoppedByUser (logMessages s)).

(** The state after [n] clicks on the Stop button. *)
Definition clicksOnStop (randomUUID : nat -> string) (n : nat) (s : State) : State :=
  Nat.iter n (fun s => snd (clickStop randomUUID s)) s.

(** A random source and identifiers for concrete runs. *)
Definition sampleRandom (n : nat) : Z :=
  (Z.of_nat n * 1234567890123457 + 99) mod 2 ^ 53.

Definition sampleUUID (n : nat) : string :=
  "00000000-0000-4000-8000-" ++ JS.numberToString (Z.of_nat n).

(** [Shifted j x y]: [y] is the rounding record [x] shifted right by [j]
    places; its round bit is up only if at least half a unit of the last
    place kept was dropped. *)
Definition Shifted (j : Z) (x y : shr_record) : Prop :=
  shr_m y = (shr_m x / 2 ^ j)%Z
  /\ (shr_r y = true -> (2 ^ (j - 1) <= shr_m x mod 2 ^ j)%Z).

(** The type of the entries that announce an available name. *)
Definition isAccent (t : LogType) : bool :=
  match t with accent => true | _ => false end.

Definition finishedText : string := "Hunt finished or stopped.".

(** [Effect ... tr fd lg l s l' s']: what a stretch of the loop that
    takes the counters from [l] to [l'] and the state from [s] to [s']
    has done: [tr] are the platform calls it made, [fd] the entries it
    appended to the found list, [lg] the entries it appended to the log. *)
Record Effect (random : nat -> Z) (randomUUID : nat -> string)
    (r : Render) (length : Z)
    (tr : list Event) (fd : list AvailableUsername) (lg : list LogMessage)
    (l : Locals) (s : State) (l' : Locals) (s' : State) : Prop := mkEffect {
  eff_trace : trace s' = (trace s ++ tr)%list;
  eff_found : availableUsernames s' = (availableUsernames s ++ fd)%list;
  eff_log : logMessages s' = (logMessages s ++ lg)%list;
  eff_uuid : uuidCalls s' = uuidCalls s + List.length lg;
  eff_ids : map id lg = map randomUUID (seq (uuidCalls s) (List.length lg));
  eff_requests :
    Forall (fun url => exists from,
              url = String.append GITHUB_API_BASE_URL (candidate random r length from))
           (requests tr);
  eff_attempts :
    currentAttempts l' = (currentAttempts l + Z.of_nat (List.length (requests tr)))%Z;
  eff_available :
    currentAvailable l' = (currentAvailable l + Z.of_nat (List.length fd))%Z;
  eff_taken : (currentTaken l <= currentTaken l')%Z;
  eff_outcomes :
    (currentAvailable l' + currentTaken l'
     <= currentAvailable l + currentTaken l
        + Z.of_nat (List.length (requests tr)))%Z;
  eff_found_requested :
    Forall (fun e => In (String.append GITHUB_API_BASE_URL (username e)) (requests tr)) fd;
  eff_announced :
    map text (filter (fun m => isAccent (type m)) lg)
    = map (fun e => String.append "AVAILABLE: " (username e)) fd;
  eff_texts : Forall (fun m => text m <> finishedText) lg;
  eff_stats : stats s = statsOf l -> stats s' = statsOf l';
  eff_controller :
    abortController s <> None -> abortController s' <> None;
  eff_aborted : aborted s = true -> aborted s' = true;
  eff_hunting :
    aborted s' = false ->
    isHunting s' = isHunting s /\ isLoading s' = isLoading s;
  eff_pause : seen_isThrottled r = false -> ~ In (EvDelay 60000) tr
}.

(** * Properties *)

(** ** Strings *)

Lemma chars_app (a b : string) : chars (a ++ b) = (chars a ++ chars b)%list.
Proof.
  induction a as [|c a IH]; cbn; [reflexivity|].
  unfold chars in IH. now rewrite IH.
Qed.

Lemma length_chars (s : string) : List.length (chars s) = String.length s.
Proof. induction s as [|c s IH]; cbn; [reflexivity|]. unfold chars in IH. now rewrite IH. Qed.

Lemma includes_digits_single (c : ascii) :
  JS.includes digits (String c EmptyString) = isDigit c.
Proof.
  destruct c as [[] [] [] [] [] [] [] []]; vm_compute; reflexivity.
Qed.

Lemma excludedDigits_single (specific d : string) :
  In d (excludedDigits specific) ->
  exists c, d = String c EmptyString /\ isDigit c = true.
Proof.
  unfold excludedDigits. rewrite filter_In. intros [_ H].
  apply andb_true_iff in H. destruct H as [Hlen Hinc].
  destruct d as [|c [|c' d]]; cbn in Hlen; try discriminate.
  exists c. split; [reflexivity|]. now rewrite <- includes_digits_single.
Qed.

Lemma filterString_ext (p q : ascii -> bool) (s : string) :
  (forall c, p c = q c) -> filterString p s = filterString q s.
Proof.
  intros H. induction s as [|a s IH]; cbn; [reflexivity|].
  now rewrite H, IH.
Qed.

Lemma filterString_all (s : string) : filterString (fun _ => true) s = s.
Proof. induction s as [|a s IH]; cbn; [reflexivity|]. now rewrite IH. Qed.

Lemma filterString_twice (p q : ascii -> bool) (s : string) :
  filterString p (filterString q s) = filterString (fun c => q c && p c) s.
Proof.
  induction s as [|a s IH]; cbn; [reflexivity|].
  destruct (q a); cbn; [destruct (p a)|]; now rewrite IH.
Qed.

Lemma chars_filterString (p : ascii -> bool) (s : string) (c : ascii) :
  In c (chars (filterString p s)) <-> In c (chars s) /\ p c = true.
Proof.
  induction s as [|a s IH]; cbn; [tauto|].
  destruct (p a) eqn:Ha; cbn; unfold chars in IH; rewrite IH.
  - split; [intros [->|[? ?]]; auto | intros [[->|?] ?]; auto].
  - split; [intros [? ?]; auto | intros [[->|?] ?]; [congruence | auto]].
Qed.

Lemma replaceAllWithEmpty_filter (d s : string) :
  JS.replaceAllWithEmpty d s =
  filterString (fun a => negb (String.eqb (String a EmptyString) d)) s.
Proof.
  destruct d as [|c [|c' d]]; cbn.
  - now rewrite filterString_all.
  - induction s as [|a s IH]; cbn; [reflexivity|].
    destruct (Ascii.eqb a c); cbn; now rewrite IH.
  - rewrite <- (filterString_all s) at 1. apply filterString_ext.
    intros a. cbn. now destruct (Ascii.eqb a c).
Qed.

Lemma fold_exclusions (excluded : list string) (s : string) :
  removeExcluded excluded s = filterString (kept excluded) s.
Proof.
  unfold removeExcluded. revert s. induction excluded as [|d l IH]; intros s; cbn.
  - unfold kept; cbn. now rewrite filterString_all.
  - rewrite IH, replaceAllWithEmpty_filter, filterString_twice.
    apply filterString_ext. intros c. unfold kept; cbn.
    now rewrite negb_orb.
Qed.

Lemma kept_same_set (l1 l2 : list string) :
  (forall d, In d l1 <-> In d l2) -> forall c, kept l1 c = kept l2 c.
Proof.
  intros H c. unfold kept. f_equal.
  apply eq_true_iff_eq. rewrite !existsb_exists.
  split; intros [d [Hin Heq]]; exists d; split; auto; now apply H.
Qed.

(** ** Trimming and splitting *)

Lemma trimEnd_empty (s : string) :
  JS.trimEnd s = EmptyString -> forall c, In c (chars s) -> JS.isWhiteSpace c = true.
Proof.
  induction s as [|a s IH]; cbn; [tauto|].
  destruct (JS.trimEnd s) eqn:E; [|discriminate].
  destruct (JS.isWhiteSpace a) eqn:Ha; [|discriminate].
  intros _ c [<-|Hc]; auto.
Qed.

Lemma trimStart_whitespace (s : string) :
  (forall c, In c (chars (JS.trimStart s)) -> JS.isWhiteSpace c = true) ->
  forall c, In c (chars s) -> JS.isWhiteSpace c = true.
Proof.
  induction s as [|a s IH]; cbn; [tauto|].
  destruct (JS.isWhiteSpace a) eqn:Ha.
  - intros H c [<-|Hc]; auto.
  - intros H c Hc. apply H. exact Hc.
Qed.

Lemma trim_empty_whitespace (s : string) :
  JS.trim s = EmptyString -> forall c, In c (chars s) -> JS.isWhiteSpace c = true.
Proof.
  intros H. apply trimStart_whitespace. now apply trimEnd_empty.
Qed.

Lemma split_without_separator (sep : ascii) (s : string) :
  ~ In sep (chars s) -> JS.split sep s = [s].
Proof.
  induction s as [|a s IH]; cbn; [reflexivity|]. intros H.
  destruct (Ascii.eqb_spec a sep) as [->|Hne]; [tauto|].
  rewrite IH by tauto. reflexivity.
Qed.

Lemma excludedDigits_blank (specific : string) :
  JS.trim specific = EmptyString -> excludedDigits specific = [].
Proof.
  intros H. unfold excludedDigits.
  rewrite (split_without_separator "," specific).
  - cbn. rewrite H. reflexivity.
  - intros Hin. apply (trim_empty_whitespace _ H) in Hin. discriminate Hin.
Qed.

Lemma numbersToInclude_filter (specific : string) :
  numbersToInclude specific = filterString (kept (excludedDigits specific)) digits.
Proof.
  unfold numbersToInclude.
  destruct (String.eqb_spec (JS.trim specific) EmptyString) as [H|H].
  - now rewrite (excludedDigits_blank _ H).
  - apply fold_exclusions.
Qed.

Lemma split_before_separator (sep : ascii) (a b : string) :
  ~ In sep (chars a) ->
  JS.split sep (a ++ String sep b) = a :: JS.split sep b.
Proof.
  induction a as [|c a IH]; cbn; intros H.
  - now rewrite Ascii.eqb_refl.
  - destruct (Ascii.eqb_spec c sep) as [->|Hne]; [tauto|].
    rewrite IH by tauto. reflexivity.
Qed.

Lemma split_concat (sep : ascii) (pieces : list string) :
  pieces <> [] ->
  (forall p, In p pieces -> ~ In sep (chars p)) ->
  JS.split sep (String.concat (String sep EmptyString) pieces) = pieces.
Proof.
  induction pieces as [|p [|q rest] IH]; intros Hne Hsep.
  - congruence.
  - cbn. apply split_without_separator. apply Hsep. now left.
  - change (String.concat (String sep EmptyString) (p :: q :: rest))
      with (p ++ String sep (String.concat (String sep EmptyString) (q :: rest))).
    rewrite split_before_separator by (apply Hsep; now left).
    f_equal. apply IH; [discriminate|].
    intros p' Hp'. apply Hsep. now right.
Qed.

Lemma digit_not_whitespace (c : ascii) :
  isDigit c = true -> JS.isWhiteSpace c = false.
Proof.
  destruct c as [[] [] [] [] [] [] [] []]; vm_compute; congruence.
Qed.

Lemma trim_single_digit (c : ascii) :
  isDigit c = true -> JS.trim (String c EmptyString) = String c EmptyString.
Proof.
  intros H. unfold JS.trim. cbn.
  rewrite (digit_not_whitespace c H). cbn.
  now rewrite (digit_not_whitespace c H).
Qed.

Lemma filter_trimmed_digits (l : list string) :
  (forall d, In d l -> exists c, d = String c EmptyString /\ isDigit c = true) ->
  filter (fun d => Nat.eqb (String.length d) 1 && JS.includes digits d)
         (map JS.trim l) = l.
Proof.
  induction l as [|d l IH]; intros H; cbn -[JS.includes]; [reflexivity|].
  destruct (H d (or_introl eq_refl)) as [c [-> Hc]].
  rewrite (trim_single_digit c Hc), includes_digits_single, Hc.
  cbn -[JS.includes]. f_equal. apply IH. intros d' Hd'. apply H. now right.
Qed.

(** Re-reading the well-formed tokens of an input gives them back. *)
Lemma excludedDigits_wellFormedOnly (specific : string) :
  excludedDigits (wellFormedOnly specific) = excludedDigits specific.
Proof.
  unfold wellFormedOnly.
  destruct (excludedDigits specific) as [|d l] eqn:E; [reflexivity|].
  rewrite <- E at 2. unfold excludedDigits at 1.
  assert (Hall : forall p, In p (d :: l) ->
                 exists c, p = String c EmptyString /\ isDigit c = true).
  { intros p Hp. apply (excludedDigits_single specific). now rewrite E. }
  rewrite split_concat.
  - rewrite filter_trimmed_digits by exact Hall. now rewrite E.
  - discriminate.
  - intros p Hp Hin. destruct (Hall p Hp) as [c [-> Hc]].
    cbn in Hin. destruct Hin as [Heq|[]]. subst c. discriminate Hc.
Qed.

(** ** The derived alphabet *)

Lemma availableChars_filter (r : Render) :
  availableChars r =
  lowercase ++
  (if seen_excludeNumbers r then EmptyString
   else filterString (kept (excludedDigits (seen_specificNumbersToExclude r))) digits).
Proof.
  unfold availableChars. destruct (seen_excludeNumbers r); cbn [negb]; [reflexivity|].
  now rewrite numbersToInclude_filter.
Qed.

Lemma lowercase_chars (c : ascii) : In c (chars lowercase) <-> isLower c = true.
Proof.
  assert (H : existsb (Ascii.eqb c) (chars lowercase) = isLower c).
  { destruct c as [[] [] [] [] [] [] [] []]; vm_compute; reflexivity. }
  rewrite <- H, existsb_exists. split.
  - intros Hin. exists c. split; [exact Hin | apply Ascii.eqb_refl].
  - intros [x [Hin Heq]]. apply Ascii.eqb_eq in Heq. now subst.
Qed.

Lemma digits_chars (c : ascii) : In c (chars digits) <-> isDigit c = true.
Proof.
  assert (H : existsb (Ascii.eqb c) (chars digits) = isDigit c).
  { destruct c as [[] [] [] [] [] [] [] []]; vm_compute; reflexivity. }
  rewrite <- H, existsb_exists. split.
  - intros Hin. exists c. split; [exact Hin | apply Ascii.eqb_refl].
  - intros [x [Hin Heq]]. apply Ascii.eqb_eq in Heq. now subst.
Qed.

Lemma lower_not_digit (c : ascii) : isLower c = true -> isDigit c = false.
Proof.
  destruct c as [[] [] [] [] [] [] [] []]; vm_compute; congruence.
Qed.

(** Membership in the derived alphabet, spelled out. *)
Lemma availableChars_chars (r : Render) (c : ascii) :
  In c (chars (availableChars r)) <->
  isLower c = true \/
  (seen_excludeNumbers r = false /\ isDigit c = true /\
   kept (excludedDigits (seen_specificNumbersToExclude r)) c = true).
Proof.
  rewrite availableChars_filter, chars_app, in_app_iff, lowercase_chars.
  destruct (seen_excludeNumbers r).
  - cbn. intuition discriminate.
  - rewrite chars_filterString, digits_chars. tauto.
Qed.

Lemma availableChars_length (r : Render) : 26 <= String.length (availableChars r).
Proof.
  rewrite <- length_chars, availableChars_filter, chars_app, length_app.
  change (List.length (chars lowercase)) with 26. lia.
Qed.

(** ** The generator *)

Lemma append_empty_r (s : string) : s ++ EmptyString = s.
Proof. induction s as [|c s IH]; cbn; [reflexivity|]. now rewrite IH. Qed.

Lemma append_assoc (a b c : string) : (a ++ b) ++ c = a ++ (b ++ c).
Proof. induction a as [|x a IH]; cbn; [reflexivity|]. now rewrite IH. Qed.

Lemma length_append (a b : string) :
  String.length (a ++ b) = String.length a + String.length b.
Proof. induction a as [|x a IH]; cbn; [reflexivity|]. now rewrite IH. Qed.

Lemma get_chars (s : string) (i : nat) (c : ascii) :
  get i s = Some c -> In c (chars s).
Proof.
  revert i. induction s as [|a s IH]; intros i; cbn; [discriminate|].
  destruct i as [|i]; [intros [= ->]; now left | intros H; right; eapply IH, H].
Qed.

Lemma get_in_range (s : string) (i : nat) :
  i < String.length s -> exists c, get i s = Some c.
Proof.
  revert i. induction s as [|a s IH]; intros i; cbn; [lia|].
  destruct i as [|i]; [now exists a | intros H; apply IH; lia].
Qed.

(** ** The binary64 product of a draw and a length *)

Section Binary64Facts.

Local Open Scope Z_scope.

Lemma digits2_pos_bounds (p : positive) :
  2 ^ (Zpos (digits2_pos p) - 1) <= Zpos p < 2 ^ Zpos (digits2_pos p).
Proof.
  induction p as [p IH|p IH|]; cbn [digits2_pos].
  - rewrite Pos2Z.inj_succ, (Pos2Z.inj_xI p).
    replace (Z.succ (Zpos (digits2_pos p)) - 1) with (Z.succ (Zpos (digits2_pos p) - 1)) by lia.
    rewrite !Z.pow_succ_r by lia.
    revert IH. generalize (2 ^ (Zpos (digits2_pos p) - 1)) (2 ^ Zpos (digits2_pos p)). lia.
  - rewrite Pos2Z.inj_succ, (Pos2Z.inj_xO p).
    replace (Z.succ (Zpos (digits2_pos p)) - 1) with (Z.succ (Zpos (digits2_pos p) - 1)) by lia.
    rewrite !Z.pow_succ_r by lia.
    revert IH. generalize (2 ^ (Zpos (digits2_pos p) - 1)) (2 ^ Zpos (digits2_pos p)). lia.
  - cbn. lia.
Qed.

Lemma Shifted_shr_1 (x : shr_record) : 0 <= shr_m x -> Shifted 1 x (shr_1 x).
Proof.
  destruct x as [m r s]. cbn [shr_m]. intros Hm. unfold Shifted, shr_1.
  change (2 ^ 1) with 2. change (2 ^ (1 - 1)) with 1.
  destruct m as [|[p|p|]|p]; cbn [shr_m shr_r]; try lia.
  - split; [reflexivity | discriminate].
  - rewrite (Pos2Z.inj_xI p). split.
    + apply Z.div_unique with 1; lia.
    + intros _.
      assert (H : (2 * Zpos p + 1) mod 2 = 1)
        by (symmetry; apply Z.mod_unique with (Zpos p); lia).
      rewrite H. lia.
  - rewrite (Pos2Z.inj_xO p). split.
    + apply Z.div_unique with 0; lia.
    + discriminate.
  - split; [reflexivity|]. intros _. reflexivity.
Qed.

Lemma Shifted_trans (a b : Z) (x y z : shr_record) :
  0 < a -> 0 < b -> 0 <= shr_m x ->
  Shifted a x y -> Shifted b y z -> Shifted (a + b) x z.
Proof.
  intros Ha Hb Hx [Hy Hry] [Hz Hrz]. unfold Shifted.
  rewrite Z.pow_add_r by lia.
  assert (Ha2 : 0 < 2 ^ a) by (apply Z.pow_pos_nonneg; lia).
  assert (Hb2 : 0 < 2 ^ b) by (apply Z.pow_pos_nonneg; lia).
  split.
  - rewrite Hz, Hy. apply Z.div_div; lia.
  - intros Hr. specialize (Hrz Hr). rewrite Hy in Hrz.
    rewrite Z.rem_mul_r by lia.
    replace (a + b - 1) with (a + (b - 1)) by lia.
    rewrite Z.pow_add_r by lia.
    pose proof (Z.mod_pos_bound (shr_m x) (2 ^ a) Ha2). nia.
Qed.

Lemma Shifted_nonneg (j : Z) (x y : shr_record) :
  0 <= j -> 0 <= shr_m x -> Shifted j x y -> 0 <= shr_m y.
Proof.
  intros Hj Hx [-> _]. apply Z.div_pos; [exact Hx | apply Z.pow_pos_nonneg; lia].
Qed.

Lemma Shifted_iter_pos (p : positive) :
  forall x, 0 <= shr_m x -> Shifted (Zpos p) x (iter_pos shr_1 p x).
Proof.
  induction p as [p IH|p IH|]; intros x Hx; cbn [iter_pos].
  - pose proof (Shifted_shr_1 x Hx) as H1.
    pose proof (Shifted_nonneg 1 _ _ ltac:(lia) Hx H1) as Hx1.
    pose proof (IH _ Hx1) as H2.
    pose proof (Shifted_nonneg (Zpos p) _ _ ltac:(lia) Hx1 H2) as Hx2.
    pose proof (IH _ Hx2) as H3.
    rewrite (Pos2Z.inj_xI p).
    replace (2 * Zpos p + 1) with ((1 + Zpos p) + Zpos p) by lia.
    eapply Shifted_trans; [lia | lia | exact Hx | | exact H3].
    eapply Shifted_trans; [lia | lia | exact Hx | exact H1 | exact H2].
  - pose proof (IH _ Hx) as H1.
    pose proof (Shifted_nonneg (Zpos p) _ _ ltac:(lia) Hx H1) as Hx1.
    pose proof (IH _ Hx1) as H2.
    rewrite (Pos2Z.inj_xO p).
    replace (2 * Zpos p) with (Zpos p + Zpos p) by lia.
    eapply Shifted_trans; [lia | lia | exact Hx | exact H1 | exact H2].
  - apply Shifted_shr_1. exact Hx.
Qed.


Lemma iter_xO_value (p d : positive) :
  Zpos (Pos.iter xO p d) = Zpos p * 2 ^ Zpos d
  /\ digits2_pos (Pos.iter xO p d) = (digits2_pos p + d)%positive.
Proof.
  induction d as [|d IH] using Pos.peano_ind.
  - cbn [Pos.iter digits2_pos]. split; [|now rewrite Pos.add_1_r].
    rewrite (Pos2Z.inj_xO p). change (2 ^ 1) with 2. lia.
  - rewrite Pos.iter_succ. destruct IH as [IHv IHd]. cbn [digits2_pos]. split.
    + rewrite (Pos2Z.inj_xO (Pos.iter xO p d)), IHv, Pos2Z.inj_succ.
      rewrite Z.pow_succ_r by lia. lia.
    + rewrite IHd. lia.
Qed.

Lemma shr_exact (m e n : Z) :
  0 <= m ->
  exists t,
    0 <= t /\ (n <= 0 -> t = 0) /\ (0 < n -> t = n)
    /\ snd (shr (shr_record_of_loc m loc_Exact) e n) = e + t
    /\ shr_m (fst (shr (shr_record_of_loc m loc_Exact) e n)) = m / 2 ^ t
    /\ (shr_r (fst (shr (shr_record_of_loc m loc_Exact) e n)) = true ->
        0 < t /\ 2 ^ (t - 1) <= m mod 2 ^ t).
Proof.
  intros Hm. destruct n as [|p|p]; cbn [shr fst snd shr_record_of_loc].
  - exists 0. rewrite Z.add_0_r, Z.div_1_r. cbn. repeat split; try lia; discriminate.
  - exists (Zpos p).
    destruct (Shifted_iter_pos p (Build_shr_record m false false) Hm) as [Hq Hr].
    cbn [shr_m] in Hq, Hr. repeat split; try lia; auto.
  - exists 0. rewrite Z.add_0_r, Z.div_1_r. cbn. repeat split; try lia; discriminate.
Qed.

Lemma round_nearest_even_cases (y : shr_record) :
  round_nearest_even (shr_m y) (loc_of_shr_record y) = shr_m y
  \/ (round_nearest_even (shr_m y) (loc_of_shr_record y) = shr_m y + 1
      /\ shr_r y = true).
Proof.
  destruct y as [m [|] [|]]; cbn; auto.
  destruct (Z.even m); auto.
Qed.

(** The number [binary_round_aux] returns for the exact value
    [M * 2^e] is at most [(M + h) * 2^e], where [h] is half a unit in
    the last place kept. *)
Lemma binary_round_aux_upper (M : positive) (e : Z) :
  -1074 <= Zpos (digits2_pos M) + e - 53 ->
  exists h,
    0 <= h /\ h * 2 ^ 53 <= Zpos M
    /\ match binary_round_aux Binary64.prec Binary64.emax false (Zpos M) e loc_Exact with
       | S754_finite false m e' => e <= e' /\ Zpos m * 2 ^ (e' - e) <= Zpos M + h
       | S754_finite true _ _ => False
       | _ => True
       end.
Proof.
  intros Hexp. unfold binary_round_aux, shr_fexp.
  set (n1 := fexp Binary64.prec Binary64.emax (Zdigits2 (Zpos M) + e) - e).
  assert (Hn1 : n1 = Zpos (digits2_pos M) - 53).
  { unfold n1, fexp, emin, Binary64.prec, Binary64.emax. cbn [Zdigits2]. lia. }
  destruct (shr_exact (Zpos M) e n1 ltac:(lia))
    as (t1 & Ht1 & Ht1z & Ht1p & He1 & Hq1 & Hr1).
  destruct (shr (shr_record_of_loc (Zpos M) loc_Exact) e n1) as [y1 e1].
  cbn [fst snd] in He1, Hq1, Hr1.
  set (mr := round_nearest_even (shr_m y1) (loc_of_shr_record y1)).
  assert (Hq1pos : 0 <= shr_m y1).
  { rewrite Hq1. apply Z.div_pos; [lia | apply Z.pow_pos_nonneg; lia]. }
  assert (Hmr : 0 <= mr).
  { unfold mr. destruct (round_nearest_even_cases y1) as [->|[-> _]]; lia. }
  set (n2 := fexp Binary64.prec Binary64.emax (Zdigits2 mr + e1) - e1).
  destruct (shr_exact mr e1 n2 Hmr) as (t2 & Ht2 & _ & _ & He2 & Hq2 & _).
  destruct (shr (shr_record_of_loc mr loc_Exact) e1 n2) as [y2 e2].
  cbn [fst snd] in He2, Hq2.
  pose proof (digits2_pos_bounds M) as [Hlo Hhi].
  assert (Hp1 : 0 < 2 ^ t1) by (apply Z.pow_pos_nonneg; lia).
  assert (Hp2 : 0 < 2 ^ t2) by (apply Z.pow_pos_nonneg; lia).
  exists (2 ^ t1 / 2).
  assert (Hh : 0 <= 2 ^ t1 / 2 /\ 2 ^ t1 / 2 * 2 ^ 53 <= Zpos M
               /\ mr * 2 ^ t1 <= Zpos M + 2 ^ t1 / 2).
  { pose proof (Z.div_mod (Zpos M) (2 ^ t1) ltac:(lia)) as Hdm.
    pose proof (Z.mod_pos_bound (Zpos M) (2 ^ t1) Hp1) as Hmod.
    destruct (Z.leb_spec n1 0) as [Hle|Hgt].
    - rewrite (Ht1z Hle) in *. change (2 ^ 0) with 1 in *. change (1 / 2) with 0.
      rewrite Z.div_1_r in Hq1.
      assert (Hno : shr_r y1 = true -> False) by (intros H; apply Hr1 in H; lia).
      unfold mr. destruct (round_nearest_even_cases y1) as [->|[_ Hr]];
        [lia | now apply Hno in Hr].
    - assert (Ht : exists j, 0 <= j /\ t1 = Z.succ j /\ j + 53 = Zpos (digits2_pos M) - 1).
      { exists (t1 - 1). specialize (Ht1p Hgt). lia. }
      destruct Ht as (j & Hj & -> & Hdig).
      rewrite Z.pow_succ_r in * by lia.
      assert (Hjp : 0 < 2 ^ j) by (apply Z.pow_pos_nonneg; lia).
      replace (2 * 2 ^ j / 2) with (2 ^ j)
        by (apply Z.div_unique with 0; lia).
      assert (Hhalf : 2 ^ j * 2 ^ 53 = 2 ^ (Zpos (digits2_pos M) - 1)).
      { rewrite <- Z.pow_add_r by lia. f_equal. lia. }
      split; [lia|]. split; [lia|].
      unfold mr. destruct (round_nearest_even_cases y1) as [->|[-> Hr]].
      + rewrite Hq1. nia.
      + apply Hr1 in Hr. destruct Hr as [_ Hr].
        replace (Z.succ j - 1) with j in Hr by lia.
        rewrite Hq1. nia. }
  destruct Hh as (Hh0 & Hh1 & Hh2).
  split; [exact Hh0|]. split; [exact Hh1|].
  destruct (shr_m y2) as [|m2|m2] eqn:Hy2; [exact I| |exact I].
  destruct (e2 <=? Binary64.emax - Binary64.prec); [|exact I].
  split; [lia|].
  replace (e2 - e) with (t2 + t1) by lia. rewrite Z.pow_add_r by lia.
  pose proof (Z.div_mod mr (2 ^ t2) ltac:(lia)) as Hdm2.
  pose proof (Z.mod_pos_bound mr (2 ^ t2) Hp2) as Hmod2.
  rewrite <- Hq2 in Hdm2. nia.
Qed.


Lemma binary_round_aux_canonical (m : positive) (e : Z) :
  Zpos (digits2_pos m) = 53 -> -1074 <= e <= 971 ->
  binary_round_aux Binary64.prec Binary64.emax false (Zpos m) e loc_Exact
  = S754_finite false m e.
Proof.
  intros Hd He. unfold binary_round_aux, shr_fexp. cbn [Zdigits2].
  assert (H0 : fexp Binary64.prec Binary64.emax (Zpos (digits2_pos m) + e) - e = 0).
  { unfold fexp, emin, Binary64.prec, Binary64.emax. lia. }
  rewrite H0. cbn [shr shr_record_of_loc shr_m loc_of_shr_record round_nearest_even].
  cbn [Zdigits2]. rewrite H0. cbn [shr shr_record_of_loc shr_m].
  destruct (Z.leb_spec e (Binary64.emax - Binary64.prec)) as [_|H];
    [reflexivity | unfold Binary64.emax, Binary64.prec in H; lia].
Qed.

(** The double built from a positive integer below 2^53 and an exponent
    holds that value exactly. *)
Lemma ofZ_positive (p : positive) (e : Z) :
  Zpos p < 2 ^ 53 -> -1021 <= e <= 971 ->
  exists m e',
    Binary64.ofZ (Zpos p) e = S754_finite false m e'
    /\ e - 52 <= e' <= e
    /\ Zpos m = Zpos p * 2 ^ (e - e').
Proof.
  intros Hp He.
  pose proof (digits2_pos_bounds p) as [Hlo _].
  assert (Hd : 1 <= Zpos (digits2_pos p) <= 53).
  { split; [lia|].
    destruct (Z.le_gt_cases (Zpos (digits2_pos p)) 53) as [H|H]; [exact H|].
    assert (2 ^ 53 <= 2 ^ (Zpos (digits2_pos p) - 1))
      by (apply Z.pow_le_mono_r; lia).
    lia. }
  unfold Binary64.ofZ, binary_normalize, binary_round, shl_align.
  assert (Hf : fexp Binary64.prec Binary64.emax (Zpos (digits2_pos p) + e)
               = Zpos (digits2_pos p) + e - 53).
  { unfold fexp, emin, Binary64.prec, Binary64.emax. lia. }
  rewrite Hf.
  destruct (Zpos (digits2_pos p) + e - 53 - e) as [|q|q] eqn:Hq; [| lia |].
  - exists p, e. rewrite binary_round_aux_canonical by lia.
    split; [reflexivity|]. split; [lia|].
    rewrite Z.sub_diag. change (2 ^ 0) with 1. lia.
  - destruct (iter_xO_value p q) as [Hv Hdig].
    exists (Pos.iter xO p q), (Zpos (digits2_pos p) + e - 53).
    rewrite binary_round_aux_canonical.
    + split; [reflexivity|]. split; [lia|].
      rewrite Hv. f_equal. f_equal. lia.
    + rewrite Hdig, Pos2Z.inj_add. lia.
    + lia.
Qed.

Lemma floor_nonfinite_or_small (r : spec_float) (M : positive) (e h bound : Z) :
  e <= 0 ->
  Zpos M + h < bound * 2 ^ (- e) ->
  match r with
  | S754_finite false m e' => e <= e' /\ Zpos m * 2 ^ (e' - e) <= Zpos M + h
  | S754_finite true _ _ => False
  | _ => True
  end ->
  0 < bound ->
  Binary64.floor r < bound.
Proof.
  intros He Hlt Hr Hb. destruct r as [s|s| |[|] m e']; cbn [Binary64.floor];
    try lia; try contradiction.
  destruct Hr as [Hee Hval].
  assert (Hpe : 0 < 2 ^ (- e)) by (apply Z.pow_pos_nonneg; lia).
  destruct (Z.leb_spec 0 e') as [Hpos|Hneg].
  - replace (e' - e) with (e' + - e) in Hval by lia.
    rewrite Z.pow_add_r in Hval by lia.
    assert (0 < 2 ^ e') by (apply Z.pow_pos_nonneg; lia). nia.
  - apply Z.div_lt_upper_bound; [apply Z.pow_pos_nonneg; lia|].
    replace (- e) with (- e' + (e' - e)) in Hlt by lia.
    rewrite Z.pow_add_r in Hlt by lia.
    assert (0 < 2 ^ (e' - e)) by (apply Z.pow_pos_nonneg; lia).
    assert (0 < 2 ^ (- e')) by (apply Z.pow_pos_nonneg; lia). nia.
Qed.

Lemma floorTimes_bound (k : Z) (n : nat) :
  (0 <= k < 2 ^ 53) -> (0 < n)%nat -> Z.of_nat n < 2 ^ 53 ->
  (floorTimes k n < n)%nat.
Proof.
  intros Hk Hn Hn53. unfold floorTimes.
  assert (Hgoal : Binary64.floor
            (Binary64.mul (Binary64.ofZ k (-53)) (Binary64.ofZ (Z.of_nat n) 0))
          < Z.of_nat n); [|lia].
  destruct (Z.of_nat n) as [|pn|pn] eqn:Hzn; [lia| |lia].
  destruct (ofZ_positive pn 0 Hn53 ltac:(lia)) as (my & ey & -> & Hey & Hmy).
  destruct k as [|pk|pk]; [cbn; lia | | lia].
  destruct (ofZ_positive pk (-53) ltac:(lia) ltac:(lia)) as (mx & ex & -> & Hex & Hmx).
  unfold Binary64.mul, SFmul. cbn [xorb].
  pose proof (digits2_pos_bounds (mx * my)) as _.
  destruct (binary_round_aux_upper (mx * my) (ex + ey)) as (h & Hh0 & Hh & Hr).
  { pose proof (Pos2Z.is_pos (digits2_pos (mx * my))). lia. }
  eapply floor_nonfinite_or_small; [| |exact Hr|lia]; [lia|].
  rewrite Pos2Z.inj_mul, Hmx, Hmy in *.
  replace (- (ex + ey)) with (53 + ((-53 - ex) + (0 - ey))) by lia.
  rewrite !Z.pow_add_r by lia.
  assert (HA : 0 < 2 ^ (-53 - ex)) by (apply Z.pow_pos_nonneg; lia).
  assert (HB : 0 < 2 ^ (0 - ey)) by (apply Z.pow_pos_nonneg; lia).
  set (A := 2 ^ (-53 - ex)) in *. set (B := 2 ^ (0 - ey)) in *.
  set (C := 2 ^ 53) in *.
  assert (HC : 0 < C) by reflexivity.
  assert (HW : 0 < Zpos pn * (A * B)) by nia.
  replace (Zpos pk * A * (Zpos pn * B)) with (Zpos pk * (Zpos pn * (A * B))) in * by ring.
  replace (Zpos pn * (C * (A * B))) with (C * (Zpos pn * (A * B))) by ring.
  revert Hh HW. generalize (Zpos pn * (A * B)). intros W Hh HW.
  assert (Hh' : h < W) by nia.
  assert (Zpos pk * W <= (C - 1) * W) by nia.
  lia.
Qed.

End Binary64Facts.

Lemma length_filterString (p : ascii -> bool) (s : string) :
  String.length (filterString p s) <= String.length s.
Proof.
  induction s as [|a s IH]; cbn; [lia|]. destruct (p a); cbn; lia.
Qed.

Lemma availableChars_length_le (r : Render) :
  String.length (availableChars r) <= 36.
Proof.
  rewrite availableChars_filter, length_append.
  change (String.length lowercase) with 26.
  destruct (seen_excludeNumbers r); [cbn; lia|].
  pose proof (length_filterString
                (kept (excludedDigits (seen_specificNumbersToExclude r))) digits) as H.
  change (String.length digits) with 10 in H. lia.
Qed.

Section Generator.

Variable random : nat -> Z.

Lemma drawChars_run (alphabet : string) (n : nat) (result : string) (s : State) :
  drawChars random alphabet n result s
  = (result ++ drawn random alphabet n (randomCalls s), advance n s).
Proof.
  revert result s. induction n as [|n IH]; intros result s.
  - cbn. rewrite append_empty_r. now destruct s.
  - cbn [drawChars drawn]. unfold bind, mathRandom.
    rewrite IH. cbn [randomCalls]. rewrite append_assoc. f_equal.
    unfold advance. cbn. now rewrite Nat.add_succ_r.
Qed.

Lemma drawn_chars (alphabet : string) (n from : nat) (c : ascii) :
  In c (chars (drawn random alphabet n from)) -> In c (chars alphabet).
Proof.
  revert from. induction n as [|n IH]; intros from; cbn [drawn]; [intros []|].
  rewrite chars_app, in_app_iff. intros [H|H]; [|eapply IH, H].
  unfold JS.charAt in H.
  destruct (get _ alphabet) as [a|] eqn:E; cbn in H; [|tauto].
  destruct H as [<-|[]]. eapply get_chars, E.
Qed.

Lemma drawn_length (alphabet : string) (n from : nat) :
  alphabet <> EmptyString ->
  (Z.of_nat (String.length alphabet) < 2 ^ 53)%Z ->
  (forall i, 0 <= random i < 2 ^ 53)%Z ->
  String.length (drawn random alphabet n from) = n.
Proof.
  intros Hne Hsmall Hrandom. revert from.
  induction n as [|n IH]; intros from; cbn [drawn]; [reflexivity|].
  rewrite length_append, IH. unfold JS.charAt.
  destruct (get_in_range alphabet
              (floorTimes (random from) (String.length alphabet))) as [c ->].
  - apply floorTimes_bound; [apply Hrandom | | exact Hsmall].
    destruct alphabet; [congruence | cbn; lia].
  - reflexivity.
Qed.

Lemma candidate_not_sentinel (r : Render) (length : Z) (from : nat) :
  String.eqb (candidate random r length from) ERROR_NO_CHARS = false.
Proof.
  apply String.eqb_neq. intros H.
  assert (Hin : In "E"%char (chars (candidate random r length from))).
  { rewrite H. now left. }
  apply drawn_chars, availableChars_chars in Hin.
  destruct Hin as [Hin|[_ [Hin _]]]; discriminate Hin.
Qed.

Variable randomUUID : nat -> string.

Lemma generateUsername_run (r : Render) (length : Z) (s : State) :
  generateUsername random randomUUID r length s
  = (candidate random r length (randomCalls s), advance (Z.to_nat length) s).
Proof.
  unfold generateUsername.
  pose proof (availableChars_length r) as Hlen.
  destruct (Nat.eqb_spec (String.length (availableChars r)) 0) as [H|_]; [lia|].
  now rewrite drawChars_run.
Qed.

(** C5. For every length of at least 1 and every configuration whose
    derived alphabet is not empty, with [Math.random] ranging over
    [0, 1), [generateUsername] returns a string of exactly [length]
    characters, each of which occurs in the derived alphabet. *)
Theorem generateUsername_length_and_alphabet
    (r : Render) (length : Z) (s : State) :
  (1 <= length)%Z ->
  availableChars r <> EmptyString ->
  (forall i, 0 <= random i < 2 ^ 53)%Z ->
  let name := fst (generateUsername random randomUUID r length s) in
  Z.of_nat (String.length name) = length
  /\ forall c, In c (chars name) -> In c (chars (availableChars r)).
Proof.
  intros Hlen Hne Hrandom. rewrite generateUsername_run. cbn [fst]. split.
  - unfold candidate. rewrite drawn_length; [lia | exact Hne | | exact Hrandom].
    pose proof (availableChars_length_le r). lia.
  - intros c. apply drawn_chars.
Qed.

(** C6. When all digits are excluded, no character of a generated
    candidate is a digit 0-9, for every exclusion input, every length
    and every state of the random source. *)
Theorem generateUsername_no_digit_when_excluded
    (r : Render) (length : Z) (s : State) :
  seen_excludeNumbers r = true ->
  forall c, In c (chars (fst (generateUsername random randomUUID r length s))) ->
            isDigit c = false.
Proof.
  intros Hex c. rewrite generateUsername_run. cbn [fst]. intros Hin.
  apply drawn_chars, availableChars_chars in Hin.
  destruct Hin as [Hlow|[Hno _]]; [now apply lower_not_digit | congruence].
Qed.

(** C10. Of the comma-separated tokens of the exclusion input, exactly
    those that trim to one character that is a digit 0-9 are
    exclusions; the derived alphabet, and with it generation, is the
    same for the input as for the list of its well-formed tokens
    alone. *)
Theorem malformed_exclusions_ignored (r : Render) (length : Z) (s : State) :
  let specific := seen_specificNumbersToExclude r in
  (forall d, In d (excludedDigits specific) <->
             In d (map JS.trim (JS.split "," specific))
             /\ exists c, d = String c EmptyString /\ isDigit c = true)
  /\ availableChars r = availableChars (withExclusions r (wellFormedOnly specific))
  /\ generateUsername random randomUUID r length s
     = generateUsername random randomUUID
         (withExclusions r (wellFormedOnly specific)) length s.
Proof.
  intros specific.
  assert (Halphabet :
    availableChars r = availableChars (withExclusions r (wellFormedOnly specific))).
  { rewrite !availableChars_filter. cbn [withExclusions seen_excludeNumbers
      seen_specificNumbersToExclude].
    now rewrite excludedDigits_wellFormedOnly. }
  split; [|split].
  - intros d. split.
    + intros H. split; [|eapply excludedDigits_single, H].
      unfold excludedDigits in H. now apply filter_In in H.
    + intros [Hin [c [-> Hc]]]. unfold excludedDigits. apply filter_In.
      split; [exact Hin|]. now rewrite includes_digits_single, Hc.
  - exact Halphabet.
  - unfold generateUsername. now rewrite <- Halphabet.
Qed.

End Generator.

(** C7. Two exclusion inputs whose well-formed tokens are the same set of
    digits, in whatever order and however often repeated, derive the same
    alphabet; and excluding one list after another is the same as
    excluding any list with the same digits at once. *)
Theorem exclusion_order_irrelevant (r : Render) (first second : string) :
  (forall d, In d (excludedDigits first) <-> In d (excludedDigits second)) ->
  availableChars (withExclusions r first) = availableChars (withExclusions r second)
  /\ forall l1 l2 : list string,
       (forall d, In d (l1 ++ l2)%list <-> In d (excludedDigits second)) ->
       removeExcluded l2 (removeExcluded l1 digits)
       = removeExcluded (excludedDigits second) digits.
Proof.
  intros Hsame. split.
  - rewrite !availableChars_filter.
    cbn [withExclusions seen_excludeNumbers seen_specificNumbersToExclude].
    destruct (seen_excludeNumbers r); [reflexivity|]. f_equal.
    apply filterString_ext, kept_same_set, Hsame.
  - intros l1 l2 H.
    unfold removeExcluded at 1 2. rewrite <- fold_left_app.
    fold (removeExcluded (l1 ++ l2) digits).
    rewrite !fold_exclusions. apply filterString_ext, kept_same_set, H.
Qed.

(** ** Frames: what the operations leave alone *)

Section Frames.

Variable random : nat -> Z.
Variable randomUUID : nat -> string.

Variable R : State -> State -> Prop.
Hypothesis R_refl : forall s, R s s.
Hypothesis R_trans : forall a b c, R a b -> R b c -> R a c.
(** [R] looks at the found list and at the log only, and accepts every
    log entry that does not announce an available name. *)
Hypothesis R_frame : forall s s',
  availableUsernames s' = availableUsernames s ->
  logMessages s' = logMessages s -> R s s'.
Hypothesis R_log : forall text type s,
  type <> accent -> R s (snd (addLog randomUUID text type s)).

Lemma keeps_ret {A} (a : A) : Keeps R (ret a).
Proof. intros s. apply R_refl. Qed.

Lemma keeps_bind {A B} (m : M A) (k : A -> M B) :
  Keeps R m -> (forall a, Keeps R (k a)) -> Keeps R (bind m k).
Proof.
  intros Hm Hk s. unfold bind. specialize (Hm s).
  destruct (m s) as [a s1]. eapply R_trans; [exact Hm | apply Hk].
Qed.

Lemma keeps_framed {A} (m : M A) :
  (forall s, availableUsernames (snd (m s)) = availableUsernames s) ->
  (forall s, logMessages (snd (m s)) = logMessages s) ->
  Keeps R m.
Proof. intros Hf Hl s. now apply R_frame. Qed.

Ltac framed := apply keeps_framed; intros s; reflexivity.

Lemma keeps_addLog (text : string) (type : LogType) :
  type <> accent -> Keeps R (addLog randomUUID text type).
Proof. intros H s. now apply R_log. Qed.

Lemma keeps_abort : Keeps R abort.
Proof.
  apply keeps_framed; intros s; unfold abort; now destruct (abortController s).
Qed.

Lemma keeps_handleStopHunting : Keeps R (handleStopHunting randomUUID).
Proof.
  unfold handleStopHunting.
  apply keeps_bind; [apply keeps_abort|intros _].
  repeat (apply keeps_bind; [framed|intros _]).
  apply keeps_addLog. discriminate.
Qed.

Lemma keeps_suspended (stop : bool) : Keeps R (suspended randomUUID stop).
Proof. destruct stop; [apply keeps_handleStopHunting | apply keeps_ret]. Qed.

Lemma keeps_delay (ms : Z) (stop : bool) : Keeps R (delay randomUUID ms stop).
Proof.
  unfold delay. apply keeps_bind; [framed | intros _; apply keeps_suspended].
Qed.

Lemma keeps_checkUsernameAvailability
    (username : string) (outcome : FetchOutcome) (stop : bool) :
  Keeps R (checkUsernameAvailability randomUUID username outcome stop).
Proof.
  unfold checkUsernameAvailability.
  apply keeps_bind; [framed|intros _].
  apply keeps_bind; [apply keeps_suspended|intros _].
  destruct outcome as [status|name message].
  - destruct (status =? 404)%Z; [apply keeps_ret|].
    destruct (status =? 200)%Z; [apply keeps_ret|].
    destruct ((status =? 403)%Z || (status =? 429)%Z); [apply keeps_ret|].
    apply keeps_bind; [apply keeps_addLog; discriminate | intros _; apply keeps_ret].
  - destruct (String.eqb name "AbortError"); [apply keeps_ret|].
    apply keeps_bind; [apply keeps_addLog; discriminate | intros _; apply keeps_ret].
Qed.

Lemma keeps_pauseIfThrottled (r : Render) (it : Iteration) :
  Keeps R (pauseIfThrottled randomUUID r it).
Proof.
  unfold pauseIfThrottled. destruct (seen_isThrottled r); [|apply keeps_ret].
  apply keeps_bind; [apply keeps_addLog; discriminate|intros _].
  apply keeps_bind; [apply keeps_delay|intros _].
  apply keeps_bind; [framed|intros _].
  apply keeps_bind; [apply keeps_addLog; discriminate|intros _].
  framed.
Qed.

Lemma keeps_generateUsername (r : Render) (length : Z) :
  Keeps R (generateUsername random randomUUID r length).
Proof.
  intros s. rewrite generateUsername_run. now apply R_frame.
Qed.

Lemma keeps_untilChecked (r : Render) (length : Z) (it : Iteration) (l : Locals) :
  Keeps R (untilChecked random randomUUID r length it l).
Proof.
  unfold untilChecked.
  apply keeps_bind; [apply keeps_pauseIfThrottled|intros stop].
  destruct stop; [apply keeps_ret|].
  apply keeps_bind; [apply keeps_generateUsername|intros username].
  destruct (String.eqb username ERROR_NO_CHARS).
  - apply keeps_bind; [apply keeps_addLog; discriminate|intros _].
    apply keeps_bind; [framed|intros cancelled].
    apply keeps_bind; [|intros _; apply keeps_ret].
    destruct cancelled; cbn [negb]; [apply keeps_ret | apply keeps_abort].
  - cbv zeta.
    apply keeps_bind; [apply keeps_addLog; discriminate|intros _].
    apply keeps_bind; [framed|intros _].
    apply keeps_bind; [apply keeps_checkUsernameAvailability|intros result].
    apply keeps_bind; [framed | intros _; apply keeps_ret].
Qed.

End Frames.

(** ** The found list only grows *)

Lemma extends_refl (s : State) : extends s s.
Proof. exists []. now rewrite app_nil_r. Qed.

Lemma extends_trans (a b c : State) : extends a b -> extends b c -> extends a c.
Proof.
  intros [x Hx] [y Hy]. exists (x ++ y)%list. now rewrite Hy, Hx, app_assoc.
Qed.

Lemma extends_frame (s s' : State) :
  availableUsernames s' = availableUsernames s ->
  logMessages s' = logMessages s -> extends s s'.
Proof. intros H _. exists []. now rewrite app_nil_r. Qed.

Section Loop.

Variable random : nat -> Z.
Variable randomUUID : nat -> string.

Lemma extends_log (text : string) (type : LogType) (s : State) :
  extends s (snd (addLog randomUUID text type s)).
Proof. exists []. cbn. now rewrite app_nil_r. Qed.

Lemma extends_log' (text : string) (type : LogType) (s : State) :
  type <> accent -> extends s (snd (addLog randomUUID text type s)).
Proof. intros _. apply extends_log. Qed.

Lemma grows_bind {A B} (m : M A) (k : A -> M B) :
  Keeps extends m -> (forall a, Keeps extends (k a)) -> Keeps extends (bind m k).
Proof. apply keeps_bind, extends_trans. Qed.

Lemma grows_ret {A} (a : A) : Keeps extends (ret a).
Proof. apply keeps_ret, extends_refl. Qed.

Lemma grows_framed {A} (m : M A) :
  (forall s, availableUsernames (snd (m s)) = availableUsernames s) -> Keeps extends m.
Proof. intros H s. exists []. now rewrite app_nil_r. Qed.

Lemma grows_delay (ms : Z) (stop : bool) : Keeps extends (delay randomUUID ms stop).
Proof.
  apply keeps_delay;
    first [exact extends_refl | exact extends_trans | exact extends_frame
          | exact extends_log'].
Qed.

Lemma grows_afterCheck (username : string) (result : CheckResult)
    (it : Iteration) (l : Locals) :
  Keeps extends (afterCheck randomUUID username result it l).
Proof.
  unfold afterCheck.
  apply grows_bind; [now apply grows_framed|intros cancelled].
  destruct cancelled.
  - apply grows_bind; [intros s; apply extends_log | intros _; apply grows_ret].
  - apply grows_bind.
    + destruct result; try apply grows_ret.
      * cbv zeta. apply grows_bind.
        { intros s. now exists [mkAvailable (now it) username]. }
        intros _. apply grows_bind; [intros s; apply extends_log|].
        intros _. apply grows_ret.
      * apply grows_bind; [now apply grows_framed | intros _; apply grows_ret].
      * apply grows_bind; [apply grows_delay | intros _; apply grows_ret].
    + intros l'. apply grows_bind; [now apply grows_framed|intros _].
      apply grows_bind; [apply grows_delay | intros _; apply grows_ret].
Qed.

Lemma grows_iteration (r : Render) (length : Z) (it : Iteration) (l : Locals) :
  Keeps extends (iteration random randomUUID r length it l).
Proof.
  unfold iteration. apply grows_bind.
  - apply keeps_untilChecked;
      first [exact extends_refl | exact extends_trans | exact extends_frame
          | exact extends_log'].
  - intros [[[username result] l']|]; [apply grows_afterCheck | apply grows_ret].
Qed.

Lemma grows_huntLoop (r : Render) (length : Z) (script : list Iteration)
    (l : Locals) :
  Keeps extends (huntLoop random randomUUID r length script l).
Proof.
  revert l. induction script as [|it rest IH]; intros l; cbn [huntLoop].
  - apply grows_bind; [now apply grows_framed|intros cancelled].
    destruct cancelled; apply grows_ret.
  - apply grows_bind; [now apply grows_framed|intros cancelled].
    destruct cancelled; [apply grows_ret|].
    apply grows_bind; [apply grows_iteration|].
    intros [[|] l']; [apply IH | apply grows_ret].
Qed.

Lemma grows_huntPrologue (length : Z) : Keeps extends (huntPrologue randomUUID length).
Proof. now apply grows_framed. Qed.

Lemma grows_huntEpilogue : Keeps extends (huntEpilogue randomUUID).
Proof.
  unfold huntEpilogue.
  apply grows_bind; [now apply grows_framed|intros _].
  apply grows_bind; [now apply grows_framed|intros _].
  apply grows_bind; [now apply grows_framed|intros cancelled].
  destruct cancelled; cbn [negb]; [apply grows_ret | intros s; apply extends_log].
Qed.

Lemma grows_huntUsernames (r : Render) (length : Z) (script : list Iteration) :
  Keeps extends (huntUsernames random randomUUID r length script).
Proof.
  unfold huntUsernames.
  apply grows_bind; [apply grows_huntPrologue|intros l].
  apply grows_bind; [apply grows_huntLoop|intros [[|] l']]; cbn [fst].
  - apply grows_bind; [apply grows_huntEpilogue | intros _; apply grows_ret].
  - apply grows_ret.
Qed.

(** C8. Starting a hunt resets the counters and the log and keeps the
    found list; every round of the loop, the whole hunt under any
    behaviour of the environment, and the stop handler leave the
    entries already in the found list in place, in order, and at most
    append to them. *)
Theorem found_list_append_only
    (r : Render) (length : Z) (script : list Iteration) (s : State) :
  (let started := snd (huntPrologue randomUUID length s) in
   stats started = mkStats 0 0 0
   /\ logMessages started
      = [mkLog (randomUUID (uuidCalls s))
           ("Starting hunt for usernames of length "
            ++ JS.numberToString length ++ "...") info]
   /\ availableUsernames started = availableUsernames s)
  /\ (forall it l,
        extends s (snd (iteration random randomUUID r length it l s)))
  /\ extends s (snd (huntUsernames random randomUUID r length script s))
  /\ availableUsernames (snd (handleStopHunting randomUUID s))
     = availableUsernames s.
Proof.
  split; [|split; [|split]].
  - cbn. auto.
  - intros it l. apply grows_iteration.
  - apply grows_huntUsernames.
  - unfold handleStopHunting, bind, abort.
    destruct (abortController s); reflexivity.
Qed.

End Loop.

(** ** Cancellation seen after the check *)

Lemma unannounced_refl (s : State) : unannounced s s.
Proof. split; [reflexivity|]. exists []. now rewrite app_nil_r. Qed.

Lemma unannounced_trans (a b c : State) :
  unannounced a b -> unannounced b c -> unannounced a c.
Proof.
  intros [Hf1 [x [Hx Px]]] [Hf2 [y [Hy Py]]]. split; [congruence|].
  exists (x ++ y)%list. split; [now rewrite Hy, Hx, app_assoc|].
  apply Forall_app. now split.
Qed.

Lemma unannounced_frame (s s' : State) :
  availableUsernames s' = availableUsernames s ->
  logMessages s' = logMessages s -> unannounced s s'.
Proof.
  intros Hf Hl. split; [exact Hf|]. exists []. now rewrite app_nil_r.
Qed.

Section Cancellation.

Variable random : nat -> Z.
Variable randomUUID : nat -> string.

Lemma unannounced_log (text : string) (type : LogType) (s : State) :
  type <> accent -> unannounced s (snd (addLog randomUUID text type s)).
Proof.
  intros H. split; [reflexivity|].
  exists [mkLog (randomUUID (uuidCalls s)) text type]. split; [reflexivity|].
  now constructor.
Qed.

Lemma unannounced_untilChecked
    (r : Render) (length : Z) (it : Iteration) (l : Locals) :
  Keeps unannounced (untilChecked random randomUUID r length it l).
Proof.
  apply keeps_untilChecked;
    first [exact unannounced_refl | exact unannounced_trans
          | exact unannounced_frame | exact unannounced_log].
Qed.

(** A check that was made has counted one attempt and nothing else,
    and the counters shown are the loop's. *)
Lemma untilChecked_counters (r : Render) (length : Z) (it : Iteration)
    (l l1 : Locals) (s s1 : State) (username : string) (result : CheckResult) :
  untilChecked random randomUUID r length it l s
  = (Some (username, result, l1), s1) ->
  l1 = mkLocals (currentAttempts l + 1) (currentAvailable l) (currentTaken l)
  /\ stats s1 = statsOf l1.
Proof.
  unfold untilChecked, bind.
  destruct (pauseIfThrottled randomUUID r it s) as [stop s0].
  destruct stop; [discriminate|].
  rewrite generateUsername_run, candidate_not_sentinel.
  unfold addLog, checkUsernameAvailability, suspended, handleStopHunting,
    abort, bind.
  cbn -[candidate String.append JS.numberToString String.eqb Z.add].
  destruct (duringFetch it), (abortController s0), (fetched it) as [status|name message];
    cbn -[candidate String.append JS.numberToString String.eqb Z.add];
    repeat match goal with
           | |- context [if ?b then _ else _] => destruct b
           end;
    cbn -[candidate String.append JS.numberToString String.eqb Z.add];
    intros [= <- <- <- <-]; split; reflexivity.
Qed.

Lemma afterCheck_cancelled (username : string) (result : CheckResult)
    (it : Iteration) (l : Locals) (s : State) :
  aborted s = true ->
  afterCheck randomUUID username result it l s
  = ((Break, l), snd (addLog randomUUID "Hunt aborted by user." info s)).
Proof.
  unfold aborted, afterCheck, bind. cbn [signalAborted fst].
  intros ->. reflexivity.
Qed.

(** C4. When the signal is seen fired once the check of a round has
    returned, the round breaks out of the loop; the outcome of that
    check is not processed: the available and taken counters keep
    their values, the found list is unchanged, no log entry announcing
    an available name is added, and the loop makes no further round. *)
Theorem cancelled_check_is_not_processed
    (r : Render) (length : Z) (it : Iteration) (l l1 : Locals)
    (s s1 : State) (username : string) (result : CheckResult) :
  untilChecked random randomUUID r length it l s
  = (Some (username, result, l1), s1) ->
  aborted s1 = true ->
  exists s',
    iteration random randomUUID r length it l s = ((Break, l1), s')
    /\ currentAvailable l1 = currentAvailable l
    /\ currentTaken l1 = currentTaken l
    /\ available (stats s') = currentAvailable l
    /\ taken (stats s') = currentTaken l
    /\ unannounced s s'
    /\ forall rest,
         aborted s = false ->
         huntLoop random randomUUID r length (it :: rest) l s
         = ((Exited, l1), s').
Proof.
  intros Hchecked Hfired.
  destruct (untilChecked_counters _ _ _ _ _ _ _ _ _ Hchecked) as [Hl1 Hstats].
  pose proof (unannounced_untilChecked r length it l s) as Hquiet.
  rewrite Hchecked in Hquiet. cbn [snd] in Hquiet.
  exists (snd (addLog randomUUID "Hunt aborted by user." info s1)).
  assert (Hiter : iteration random randomUUID r length it l s
                  = ((Break, l1),
                     snd (addLog randomUUID "Hunt aborted by user." info s1))).
  { unfold iteration, bind. rewrite Hchecked.
    now apply afterCheck_cancelled. }
  split; [exact Hiter|].
  split; [now rewrite Hl1|]. split; [now rewrite Hl1|].
  split; [cbn; now rewrite Hstats, Hl1|].
  split; [cbn; now rewrite Hstats, Hl1|].
  split.
  - eapply unannounced_trans; [exact Hquiet|].
    apply unannounced_log. discriminate.
  - intros rest Hlive. cbn [huntLoop]. unfold bind at 1.
    unfold aborted in Hlive. cbn [signalAborted fst] in Hlive.
    cbn [signalAborted]. rewrite Hlive. unfold bind. now rewrite Hiter.
Qed.

End Cancellation.

(** ** A scripted run *)

Section Scripted.

Variable random : nat -> Z.
Variable randomUUID : nat -> string.

Lemma huntLoop_done (r : Render) (length : Z) (l : Locals) (s : State) :
  aborted s = false ->
  huntLoop random randomUUID r length [] l s = ((Running, l), s).
Proof.
  unfold aborted. cbn [huntLoop signalAborted fst]. unfold bind.
  cbn [signalAborted]. now intros ->.
Qed.

Lemma huntLoop_continue (r : Render) (length : Z) (it : Iteration)
    (rest : list Iteration) (l l' : Locals) (s s' : State) :
  aborted s = false ->
  iteration random randomUUID r length it l s = ((Continue, l'), s') ->
  huntLoop random randomUUID r length (it :: rest) l s
  = huntLoop random randomUUID r length rest l' s'.
Proof.
  unfold aborted. cbn [huntLoop signalAborted fst]. unfold bind at 1.
  cbn [signalAborted]. intros -> Hit. unfold bind at 1. now rewrite Hit.
Qed.

(** One undisturbed round, for the four status codes of the script. *)
Lemma undisturbed_round (r : Render) (length : Z) (status : Z)
    (result : CheckResult) (t : string) (l : Locals) (s : State) :
  In (status, result)
     [(404, r_available); (200, r_taken); (403, r_throttled); (500, r_error)]%Z ->
  aborted s = false ->
  exists name s',
    iteration random randomUUID r length (undisturbed status t) l s
    = ((Continue, counted result l), s')
    /\ aborted s' = false
    /\ requests (trace s')
       = (requests (trace s) ++ [String.append GITHUB_API_BASE_URL name])%list
    /\ results (trace s') = (results (trace s) ++ [result])%list
    /\ stats s' = statsOf (counted result l)
    /\ availableUsernames s'
       = (availableUsernames s ++ recorded result t name)%list.
Proof.
  intros Hstatus Hlive.
  exists (candidate random r length (randomCalls s)).
  destruct s as [ul en sp hu found logs st thr ctl lo uc rc tr0].
  assert (Hctl : ctl = None \/ ctl = Some false).
  { destruct ctl as [[|]|]; auto. discriminate Hlive. }
  unfold iteration, untilChecked, bind.
  destruct r as [sul sen ssp sthr].
  unfold pauseIfThrottled, seen_isThrottled, addLog, delay, suspended, bind.
  destruct sthr; destruct Hctl as [-> | ->];
    cbn -[generateUsername candidate String.append JS.numberToString
          checkUsernameAvailability afterCheck];
    rewrite generateUsername_run, candidate_not_sentinel;
    unfold checkUsernameAvailability, afterCheck, addLog, delay, suspended,
      undisturbed, bind;
    cbn in Hstatus;
    destruct Hstatus as [H|[H|[H|[H|[]]]]]; injection H as <- <-;
    cbn -[candidate String.append JS.numberToString Z.to_nat Nat.add];
    eexists; (split; [reflexivity|]);
    cbn -[candidate String.append JS.numberToString Z.to_nat Nat.add];
    unfold requests, results; rewrite ?flat_map_app; cbn;
    rewrite ?app_nil_r, <- ?app_assoc; repeat split; reflexivity.
Qed.

(** C1. Against the scripted responses 404, 200, 403, 500, 404, with no
    cancellation and no transport failure, a hunt makes five checks,
    whose results are, in order, available, taken, throttled, error,
    available; the counters, reset at the start, read 5 attempts, 2
    available and 1 taken, and exactly two entries are appended to the
    found list: the first and the fifth name checked, in that order,
    each with the clock reading of its round. *)
Theorem scripted_five_responses
    (r : Render) (length : Z) (t1 t2 t3 t4 t5 : string) (s : State) :
  exists u1 u2 u3 u4 u5 final,
    huntUsernames random randomUUID r length
      [undisturbed 404 t1; undisturbed 200 t2; undisturbed 403 t3;
       undisturbed 500 t4; undisturbed 404 t5] s
    = ((Running, mkLocals 5 2 1), final)
    /\ requests (trace final)
       = (requests (trace s)
          ++ map (String.append GITHUB_API_BASE_URL) [u1; u2; u3; u4; u5])%list
    /\ results (trace final)
       = (results (trace s)
          ++ [r_available; r_taken; r_throttled; r_error; r_available])%list
    /\ stats final = mkStats 5 2 1
    /\ availableUsernames final
       = (availableUsernames s ++ [mkAvailable t1 u1; mkAvailable t5 u5])%list.
Proof.
  unfold huntUsernames, bind.
  destruct (huntPrologue randomUUID length s) as [l0 s0] eqn:E.
  assert (H0 : l0 = mkLocals 0 0 0 /\ aborted s0 = false
               /\ trace s0 = trace s
               /\ availableUsernames s0 = availableUsernames s).
  { cbn in E. injection E as <- <-. now cbn. }
  destruct H0 as (-> & Hlive0 & Htr0 & Hf0).
  destruct (undisturbed_round r length 404 r_available t1 (mkLocals 0 0 0) s0)
    as (u1 & s1 & H1 & Hlive1 & Hreq1 & Hres1 & _ & Hf1);
    [cbn; auto | exact Hlive0 |].
  destruct (undisturbed_round r length 200 r_taken t2
              (counted r_available (mkLocals 0 0 0)) s1)
    as (u2 & s2 & H2 & Hlive2 & Hreq2 & Hres2 & _ & Hf2);
    [cbn; auto | exact Hlive1 |].
  destruct (undisturbed_round r length 403 r_throttled t3
              (counted r_taken (counted r_available (mkLocals 0 0 0))) s2)
    as (u3 & s3 & H3 & Hlive3 & Hreq3 & Hres3 & _ & Hf3);
    [cbn; auto | exact Hlive2 |].
  destruct (undisturbed_round r length 500 r_error t4
              (counted r_throttled
                 (counted r_taken (counted r_available (mkLocals 0 0 0)))) s3)
    as (u4 & s4 & H4 & Hlive4 & Hreq4 & Hres4 & _ & Hf4);
    [cbn; auto 6 | exact Hlive3 |].
  destruct (undisturbed_round r length 404 r_available t5
              (counted r_error
                 (counted r_throttled
                    (counted r_taken (counted r_available (mkLocals 0 0 0))))) s4)
    as (u5 & s5 & H5 & Hlive5 & Hreq5 & Hres5 & Hst5 & Hf5);
    [cbn; auto | exact Hlive4 |].
  rewrite (huntLoop_continue _ _ _ _ _ _ _ _ Hlive0 H1),
          (huntLoop_continue _ _ _ _ _ _ _ _ Hlive1 H2),
          (huntLoop_continue _ _ _ _ _ _ _ _ Hlive2 H3),
          (huntLoop_continue _ _ _ _ _ _ _ _ Hlive3 H4),
          (huntLoop_continue _ _ _ _ _ _ _ _ Hlive4 H5),
          (huntLoop_done _ _ _ _ Hlive5).
  exists u1, u2, u3, u4, u5, s5. cbn [fst ret].
  split; [reflexivity|]. split; [|split; [|split]].
  - rewrite Hreq5, Hreq4, Hreq3, Hreq2, Hreq1, Htr0.
    cbn [map]. now rewrite <- !app_assoc.
  - rewrite Hres5, Hres4, Hres3, Hres2, Hres1, Htr0.
    now rewrite <- !app_assoc.
  - exact Hst5.
  - rewrite Hf5, Hf4, Hf3, Hf2, Hf1, Hf0. cbn [recorded].
    now rewrite !app_nil_r, <- app_assoc.
Qed.

End Scripted.

(** ** The empty-alphabet branches *)

Section Unreachable.

Variable random : nat -> Z.
Variable randomUUID : nat -> string.

(** C9. Whatever the configuration, the derived alphabet holds all 26
    lowercase letters and so is never empty; [generateUsername] never
    returns the sentinel nor logs its internal error, and
    [handleStartHunting] either refuses an invalid length or starts the
    hunt: it never refuses for want of characters. *)
Theorem alphabet_never_empty
    (r : Render) (length : Z) (script : list Iteration) (s : State) :
  (forall c, isLower c = true -> In c (chars (availableChars r)))
  /\ 26 <= String.length (availableChars r)
  /\ availableChars r <> EmptyString
  /\ fst (generateUsername random randomUUID r length s) <> ERROR_NO_CHARS
  /\ logMessages (snd (generateUsername random randomUUID r length s))
     = logMessages s
  /\ handleStartHunting random randomUUID r script s
     = if invalidLength (JS.parseInt (seen_usernameLength r))
       then addLog randomUUID
              ("Please enter a valid length between "
               ++ JS.numberToString USER_INPUT_MIN_LENGTH ++ " and "
               ++ JS.numberToString MAX_USERNAME_LENGTH ++ ". GitHub min is "
               ++ JS.numberToString MIN_USERNAME_LENGTH ++ ".") error s
       else (huntUsernames random randomUUID r
               (match JS.parseInt (seen_usernameLength r) with
                | Some len => len
                | None => 0%Z
                end) script ;;
             ret tt) s.
Proof.
  pose proof (availableChars_length r) as Hlen.
  repeat split.
  - intros c Hc. apply availableChars_chars. now left.
  - exact Hlen.
  - intros H. rewrite H in Hlen. cbn in Hlen. lia.
  - rewrite generateUsername_run. cbn [fst].
    apply String.eqb_neq, candidate_not_sentinel.
  - now rewrite generateUsername_run.
  - unfold handleStartHunting.
    destruct (invalidLength (JS.parseInt (seen_usernameLength r))); [reflexivity|].
    destruct (Nat.eqb_spec (String.length (availableChars r)) 0) as [H|_]; [lia|].
    destruct (Nat.ltb_spec (String.length (availableChars r)) 2) as [H|_]; [lia|].
    now rewrite andb_false_r.
Qed.

End Unreachable.

(** ** Stopping *)

Section Stop.

Variable randomUUID : nat -> string.

Lemma stop_once (s : State) :
  let s' := snd (handleStopHunting randomUUID s) in
  stats s' = stats s
  /\ availableUsernames s' = availableUsernames s
  /\ isThrottled s' = false
  /\ logMessages s'
     = (logMessages s
        ++ [mkLog (randomUUID (uuidCalls s)) "Hunting stopped by user." info])%list.
Proof.
  unfold handleStopHunting, bind, abort.
  destruct (abortController s); cbn; auto.
Qed.

(** A click on Stop in a state that is not hunting changes nothing. *)
Lemma clickStop_not_hunting (s : State) :
  isHunting s = false -> clickStop randomUUID s = (tt, s).
Proof. unfold clickStop. now intros ->. Qed.

(** C3. The stop operation, as the page offers it, is idempotent. One
    click on Stop leaves the counters and the found list unchanged and
    leaves the session not hunting; when the session was hunting it
    clears the throttle flag and logs "stopped by user" once, and when
    it was already stopped it changes nothing. Any number of further
    clicks leave the state as the first click left it: the event is not
    logged again, the counters and the found list are not touched and
    the throttle flag stays cleared. *)
Theorem stop_click_is_idempotent (n : nat) (s : State) :
  let stopped := snd (clickStop randomUUID s) in
  clicksOnStop randomUUID n stopped = stopped
  /\ stats stopped = stats s
  /\ availableUsernames stopped = availableUsernames s
  /\ isHunting stopped = false
  /\ isThrottled stopped = (if isHunting s then false else isThrottled s)
  /\ stoppedEvents stopped = stoppedEvents s + (if isHunting s then 1 else 0).
Proof.
  cbv zeta.
  assert (Hdown : isHunting (snd (clickStop randomUUID s)) = false).
  { unfold clickStop. destruct (isHunting s) eqn:Hh; [|exact Hh].
    unfold handleStopHunting, bind, abort. now destruct (abortController s). }
  split.
  - induction n as [|n IH]; [reflexivity|].
    change (snd (clickStop randomUUID
                   (clicksOnStop randomUUID n (snd (clickStop randomUUID s))))
            = snd (clickStop randomUUID s)).
    rewrite IH. now rewrite clickStop_not_hunting.
  - unfold clickStop in *. destruct (isHunting s) eqn:Hh.
    + destruct (stop_once s) as (Hst & Hf & Hthr & Hlog).
      repeat split; auto.
      unfold stoppedEvents. rewrite Hlog, filter_app, length_app. reflexivity.
    + cbn [snd]. repeat split; auto.
Qed.

End Stop.

(** The pause is decided by the render alone: a loop started by a render
    that saw the flag down never enters it, whatever the rounds set. *)
Lemma pauseIfThrottled_flag_down (randomUUID : nat -> string) (r : Render)
    (it : Iteration) :
  seen_isThrottled r = false -> pauseIfThrottled randomUUID r it = ret false.
Proof. unfold pauseIfThrottled. now intros ->. Qed.

(** ** Concrete runs *)

Lemma sampleRandom_range (i : nat) : (0 <= sampleRandom i < 2 ^ 53)%Z.
Proof. unfold sampleRandom. apply Z.mod_pos_bound. reflexivity. Qed.

(** C2. A fresh page, length 3, the remote answering 403 and then 404,
    the user doing nothing: the first check is classified throttled and
    the flag cell is set, yet the second check follows after the
    1500 ms gap alone; no 60000 ms pause separates the two requests. *)
Theorem throttled_check_followed_without_pause :
  let final :=
    snd (handleStartHunting sampleRandom sampleUUID (render initialState)
           [undisturbed 403 "2024-05-01 10:00:00";
            undisturbed 404 "2024-05-01 10:00:02"] initialState) in
  trace final
  = [EvFetch "https://api.github.com/users/aej"; EvResult r_throttled;
     EvDelay 1500;
     EvFetch "https://api.github.com/users/oty"; EvResult r_available;
     EvDelay 1500]
  /\ ~ In (EvDelay 60000) (trace final)
  /\ isThrottled final = true.
Proof.
  vm_compute. split; [reflexivity|]. split; [|reflexivity].
  intros H. repeat (destruct H as [H|H]; [discriminate H|]). exact H.
Qed.

(** The index is the floor of the rounded product: 36 times the draw
    8506799296144270 / 2^53 is 33.99999999999999911..., which rounds to
    the double 34. *)
Lemma floorTimes_follows_the_rounded_product :
  floorTimes 8506799296144270 36 = 34
  /\ Z.to_nat (8506799296144270 * 36 / 2 ^ 53) = 33.
Proof. split; vm_compute; reflexivity. Qed.

Lemma cancelled_check_is_not_processed_witness :
  let r := render initialState in
  let it := mkIteration false (Response 404) true "2024-05-01 10:00:00" false false in
  let l := mkLocals 0 0 0 in
  let s := snd (huntPrologue sampleUUID 3 initialState) in
  exists username result l1 s1,
    untilChecked sampleRandom sampleUUID r 3 it l s
    = (Some (username, result, l1), s1)
    /\ aborted s1 = true
    /\ exists s',
         iteration sampleRandom sampleUUID r 3 it l s = ((Break, l1), s')
         /\ currentAvailable l1 = currentAvailable l
         /\ currentTaken l1 = currentTaken l
         /\ available (stats s') = currentAvailable l
         /\ taken (stats s') = currentTaken l
         /\ unannounced s s'
         /\ forall rest,
              aborted s = false ->
              huntLoop sampleRandom sampleUUID r 3 (it :: rest) l s
              = ((Exited, l1), s').
Proof.
  cbv zeta.
  exists "aej", r_available, (mkLocals 1 0 0).
  eexists. split; [vm_compute; reflexivity|]. split; [reflexivity|].
  eapply cancelled_check_is_not_processed; [vm_compute; reflexivity | reflexivity].
Defined.

Lemma generateUsername_length_and_alphabet_witness :
  let r := mkRender "5" false "1, 3,x,55" false in
  (1 <= 5)%Z
  /\ availableChars r <> EmptyString
  /\ (forall i, 0 <= sampleRandom i < 2 ^ 53)%Z
  /\ Z.of_nat (String.length
                 (fst (generateUsername sampleRandom sampleUUID r 5 initialState)))
     = 5%Z
  /\ forall c,
       In c (chars (fst (generateUsername sampleRandom sampleUUID r 5 initialState))) ->
       In c (chars (availableChars r)).
Proof.
  cbv zeta.
  split; [lia|]. split; [discriminate|]. split; [exact sampleRandom_range|].
  apply (generateUsername_length_and_alphabet sampleRandom sampleUUID
           (mkRender "5" false "1, 3,x,55" false) 5 initialState);
    [lia | discriminate | exact sampleRandom_range].
Defined.

Lemma generateUsername_no_digit_when_excluded_witness :
  let r := mkRender "8" true "1,2" false in
  seen_excludeNumbers r = true
  /\ forall c,
       In c (chars (fst (generateUsername sampleRandom sampleUUID r 8 initialState))) ->
       isDigit c = false.
Proof.
  cbv zeta. split; [reflexivity|].
  apply (generateUsername_no_digit_when_excluded sampleRandom sampleUUID
           (mkRender "8" true "1,2" false) 8 initialState).
  reflexivity.
Defined.

Lemma exclusion_order_irrelevant_witness :
  let r := render initialState in
  (forall d, In d (excludedDigits "1,3,5") <-> In d (excludedDigits "5,3,1"))
  /\ availableChars (withExclusions r "1,3,5")
     = availableChars (withExclusions r "5,3,1")
  /\ forall l1 l2 : list string,
       (forall d, In d (l1 ++ l2)%list <-> In d (excludedDigits "5,3,1")) ->
       removeExcluded l2 (removeExcluded l1 digits)
       = removeExcluded (excludedDigits "5,3,1") digits.
Proof.
  cbv zeta.
  assert (H : forall d, In d (excludedDigits "1,3,5") <-> In d (excludedDigits "5,3,1")).
  { intros d. vm_compute. tauto. }
  split; [exact H|].
  apply (exclusion_order_irrelevant (render initialState) "1,3,5" "5,3,1" H).
Defined.

(** ** What a hunt does, round by round *)

Section Rounds.

Variable random : nat -> Z.
Variable randomUUID : nat -> string.

Ltac crunch :=
  lazy -[candidate String.append JS.numberToString Z.to_nat Nat.add Z.add Z.of_nat
         String.eqb Z.eqb generateUsername app orb negb].

Ltac branch :=
  repeat match goal with
         | |- context [if ?b then _ else _] => destruct b; crunch
         | |- context [match ?o with Response _ => _ | Rejected _ _ => _ end] =>
             destruct o; crunch
         end.

Ltac run_round :=
  unfold iteration, untilChecked, pauseIfThrottled, bind;
  crunch; branch;
  rewrite ?generateUsername_run, ?candidate_not_sentinel;
  crunch; branch.

Ltac appended :=
  rewrite <- ?app_assoc; first [reflexivity | symmetry; apply app_nil_r].

Lemma round_effect (r : Render) (length : Z) (it : Iteration)
    (l l' : Locals) (s s' : State) (flow : Flow) :
  abortController s = Some false ->
  iteration random randomUUID r length it l s = ((flow, l'), s') ->
  (exists tr fd lg, Effect random randomUUID r length tr fd lg l s l' s')
  /\ (flow = Break -> aborted s' = true)
  /\ (duringFetch it = true \/ duringGap it = true -> aborted s' = true).
Proof.
  destruct s as [ul en sp hu found logs st thr ctl lo uc rc tr0].
  destruct r as [sul sen ssp sthr].
  destruct it as [dp f df nw de dg].
  destruct l as [la lv lt].
  cbn [abortController]. intros ->.
  run_round.
  all: intros [= <- <- <-].
  all: split; [|split;
         [intros H; first [reflexivity | discriminate H]
         |intros [H|H]; first [reflexivity | discriminate H]]].
  all: do 3 eexists; constructor;
    [ appended | appended | appended
     | cbn; lia
     | reflexivity
     | cbn -[candidate String.append];
       first [apply Forall_nil
             | apply Forall_cons; [eexists; reflexivity | apply Forall_nil]]
     | cbn; lia | cbn; lia | cbn; lia | cbn; lia
     | cbn -[candidate String.append];
       first [apply Forall_nil
             | apply Forall_cons; [left; reflexivity | apply Forall_nil]]
     | reflexivity
     | cbn [app];
       repeat (apply Forall_cons;
               [intros H; unfold finishedText in H;
                cbn -[candidate JS.numberToString] in H; discriminate H|]);
       apply Forall_nil
     | cbn; intros H; first [exact H | reflexivity]
     | intros _; discriminate
     | intros H; discriminate H
     | cbn; intros H; first [discriminate H | split; reflexivity]
     | cbn; intros H; first [discriminate H
         | intros Hin; repeat (destruct Hin as [Hin|Hin]; [discriminate Hin|]);
           exact Hin] ].
Qed.

Lemma Effect_refl (r : Render) (length : Z) (l : Locals) (s : State) :
  Effect random randomUUID r length [] [] [] l s l s.
Proof.
  constructor; cbn; rewrite ?app_nil_r, ?Nat.add_0_r; auto; try lia.
Qed.

Lemma Effect_trans (r : Render) (length : Z)
    (tr1 tr2 : list Event) (fd1 fd2 : list AvailableUsername)
    (lg1 lg2 : list LogMessage) (l l1 l2 : Locals) (s s1 s2 : State) :
  Effect random randomUUID r length tr1 fd1 lg1 l s l1 s1 ->
  Effect random randomUUID r length tr2 fd2 lg2 l1 s1 l2 s2 ->
  Effect random randomUUID r length (tr1 ++ tr2) (fd1 ++ fd2) (lg1 ++ lg2)
    l s l2 s2.
Proof.
  intros [T1 F1 L1 U1 I1 R1 A1 V1 K1 O1 Q1 N1 X1 S1 C1 B1 H1 P1]
         [T2 F2 L2 U2 I2 R2 A2 V2 K2 O2 Q2 N2 X2 S2 C2 B2 H2 P2].
  unfold requests in *.
  constructor; unfold requests;
    rewrite ?flat_map_app, ?length_app, ?Nat2Z.inj_add.
  - rewrite app_assoc. congruence.
  - rewrite app_assoc. congruence.
  - rewrite app_assoc. congruence.
  - lia.
  - rewrite seq_app, !map_app. f_equal; congruence.
  - apply Forall_app. now split.
  - lia.
  - lia.
  - lia.
  - lia.
  - apply Forall_app. split.
    + eapply Forall_impl; [|exact Q1]. cbn. intros e He.
      apply in_or_app. now left.
    + eapply Forall_impl; [|exact Q2]. cbn. intros e He.
      apply in_or_app. now right.
  - rewrite filter_app, !map_app. congruence.
  - apply Forall_app. now split.
  - auto.
  - auto.
  - auto.
  - intros H.
    destruct (aborted s1) eqn:E1; [rewrite (B2 eq_refl) in H; discriminate H|].
    destruct (H2 H), (H1 eq_refl). split; congruence.
  - intros H Hin. apply in_app_or in Hin.
    destruct Hin; [now apply P1 | now apply P2].
Qed.

Lemma huntLoop_aborted (r : Render) (length : Z) (script : list Iteration)
    (l : Locals) (s : State) :
  aborted s = true ->
  huntLoop random randomUUID r length script l s = ((Exited, l), s).
Proof.
  unfold aborted. cbn [signalAborted fst]. intros H.
  destruct script; cbn [huntLoop]; unfold bind; cbn [signalAborted];
    now rewrite H.
Qed.

Lemma loop_effect (r : Render) (length : Z) (script : list Iteration) :
  forall (l l' : Locals) (s s' : State) (out : Outcome),
    abortController s <> None ->
    huntLoop random randomUUID r length script l s = ((out, l'), s') ->
    (exists tr fd lg, Effect random randomUUID r length tr fd lg l s l' s')
    /\ (out = Exited -> aborted s' = true)
    /\ (out = Running -> aborted s' = false).
Proof.
  induction script as [|it rest IH]; intros l l' s s' out Hctl Hrun.
  - destruct (aborted s) eqn:Hab.
    + rewrite huntLoop_aborted in Hrun by exact Hab. injection Hrun as <- <- <-.
      split; [exists [], [], []; apply Effect_refl|]. split; [auto|discriminate].
    + rewrite huntLoop_done in Hrun by exact Hab. injection Hrun as <- <- <-.
      split; [exists [], [], []; apply Effect_refl|]. split; [discriminate|auto].
  - destruct (aborted s) eqn:Hab.
    + rewrite huntLoop_aborted in Hrun by exact Hab. injection Hrun as <- <- <-.
      split; [exists [], [], []; apply Effect_refl|]. split; [auto|discriminate].
    + assert (Hlive : abortController s = Some false).
      { unfold aborted in Hab. cbn in Hab.
        destruct (abortController s) as [[|]|]; congruence. }
      destruct (iteration random randomUUID r length it l s)
        as [[flow l1] s1] eqn:Hit.
      destruct (round_effect _ _ _ _ _ _ _ _ Hlive Hit)
        as ((tr1 & fd1 & lg1 & E1) & Hbreak & _).
      destruct flow.
      * rewrite (huntLoop_continue _ _ _ _ _ _ _ _ _ _ Hab Hit) in Hrun.
        destruct (IH _ _ _ _ _ (eff_controller _ _ _ _ _ _ _ _ _ _ _ E1 Hctl) Hrun)
          as ((tr2 & fd2 & lg2 & E2) & Hex & Hrunning).
        split; [|now split].
        exists (tr1 ++ tr2)%list, (fd1 ++ fd2)%list, (lg1 ++ lg2)%list.
        eapply Effect_trans; eassumption.
      * cbn [huntLoop] in Hrun. unfold bind at 1 in Hrun.
        unfold aborted in Hab. cbn [signalAborted fst] in Hab.
        cbn [signalAborted] in Hrun. rewrite Hab in Hrun.
        unfold bind in Hrun. rewrite Hit in Hrun. injection Hrun as <- <- <-.
        split; [exists tr1, fd1, lg1; exact E1|]. split; [auto|discriminate].
Qed.

(** A hunt, from Start to where it stands when the script ends: the loop
    ran from the state the prologue left to a state [s1], and the
    [finally] block, if reached, only lowered the two flags. *)
Lemma hunt_effect (r : Render) (length : Z) (script : list Iteration)
    (s final : State) (out : Outcome) (l : Locals) :
  huntUsernames random randomUUID r length script s = ((out, l), final) ->
  exists tr fd lg s1,
    Effect random randomUUID r length tr fd lg (mkLocals 0 0 0)
      (snd (huntPrologue randomUUID length s)) l s1
    /\ trace final = trace s1
    /\ availableUsernames final = availableUsernames s1
    /\ logMessages final = logMessages s1
    /\ stats final = stats s1
    /\ aborted final = aborted s1
    /\ (out = Exited ->
        aborted s1 = true /\ isHunting final = false /\ isLoading final = false)
    /\ (out = Running -> aborted s1 = false /\ final = s1).
Proof.
  unfold huntUsernames, bind.
  destruct (huntPrologue randomUUID length s) as [l0 s0] eqn:Hpro.
  assert (H0 : l0 = mkLocals 0 0 0 /\ abortController s0 = Some false).
  { cbn in Hpro. injection Hpro as <- <-. now cbn. }
  destruct H0 as [-> Hctl]. cbn [snd].
  destruct (huntLoop random randomUUID r length script (mkLocals 0 0 0) s0)
    as [[out1 l1] s1] eqn:Hloop.
  assert (Hne : abortController s0 <> None) by congruence.
  destruct (loop_effect _ _ _ _ _ _ _ _ Hne Hloop)
    as ((tr & fd & lg & E) & Hex & Hrunning).
  cbn [fst]. destruct out1.
  - specialize (Hex eq_refl). unfold huntEpilogue, bind.
    unfold aborted in Hex. cbn [signalAborted fst] in Hex.
    cbn [setIsHunting setIsLoading signalAborted abortController].
    rewrite Hex. cbn [negb ret]. intros [= <- <- <-].
    exists tr, fd, lg, s1. split; [exact E|].
    repeat split; try reflexivity; try discriminate.
    unfold aborted. cbn. exact Hex.
  - unfold ret. intros [= <- <- <-].
    exists tr, fd, lg, s1. split; [exact E|].
    repeat split; try reflexivity; try discriminate; auto.
Qed.

End Rounds.

(** ** Whole hunts *)

Section Hunts.

Variable random : nat -> Z.
Variable randomUUID : nat -> string.

(** X3. The entry "Hunt finished or stopped." of the [finally] block is
    never logged: nothing in the loop body throws, and every way out of
    the loop leaves the signal aborted, so no log of a hunt, finished or
    not, holds that entry. *)
Theorem finished_event_never_logged
    (r : Render) (length : Z) (script : list Iteration) (s : State) :
  Forall (fun m => text m <> "Hunt finished or stopped.")
    (logMessages (snd (huntUsernames random randomUUID r length script s))).
Proof.
  destruct (huntUsernames random randomUUID r length script s)
    as [[out l] final] eqn:Hrun.
  destruct (hunt_effect _ _ _ _ _ _ _ _ _ Hrun)
    as (tr & fd & lg & s1 & E & _ & _ & Hlog & _).
  cbn [snd]. rewrite Hlog, (eff_log _ _ _ _ _ _ _ _ _ _ _ E).
  apply Forall_app. split; [|exact (eff_texts _ _ _ _ _ _ _ _ _ _ _ E)].
  cbn. constructor; [|constructor]. cbn. discriminate.
Qed.

(** X4. The loop's own counters count what the loop did: its attempts
    are the requests it made since Start, its available count is the
    number of entries it appended to the found list, its taken count is
    not negative, and available plus taken never exceed the attempts. *)
Theorem counters_count_the_hunt
    (r : Render) (length : Z) (script : list Iteration) (s : State) :
  let run := huntUsernames random randomUUID r length script s in
  let l := snd (fst run) in
  exists tr fd,
    trace (snd run) = (trace s ++ tr)%list
    /\ availableUsernames (snd run) = (availableUsernames s ++ fd)%list
    /\ currentAttempts l = Z.of_nat (List.length (requests tr))
    /\ currentAvailable l = Z.of_nat (List.length fd)
    /\ (0 <= currentTaken l)%Z
    /\ (currentAvailable l + currentTaken l <= currentAttempts l)%Z.
Proof.
  cbv zeta.
  destruct (huntUsernames random randomUUID r length script s)
    as [[out l] final] eqn:Hrun.
  destruct (hunt_effect _ _ _ _ _ _ _ _ _ Hrun)
    as (tr & fd & lg & s1 & E & Htr & Hfd & _).
  destruct E as [T F _ _ _ _ A V K O _ _ _ _ _ _ _ _].
  cbn [fst snd]. exists tr, fd. cbn in A, V, K, O.
  repeat split; try lia.
  - now rewrite Htr, T.
  - now rewrite Hfd, F.
Qed.



(** X6. A hunt started by a render that saw the throttle flag down
    never waits 60000 ms, whatever the remote answers and whatever the
    rounds set the flag to. *)
Theorem no_long_pause_when_render_saw_flag_down
    (r : Render) (length : Z) (script : list Iteration) (s : State) :
  seen_isThrottled r = false ->
  exists tr,
    trace (snd (huntUsernames random randomUUID r length script s))
    = (trace s ++ tr)%list
    /\ ~ In (EvDelay 60000) tr.
Proof.
  intros Hflag.
  destruct (huntUsernames random randomUUID r length script s)
    as [[out l] final] eqn:Hrun.
  destruct (hunt_effect _ _ _ _ _ _ _ _ _ Hrun)
    as (tr & fd & lg & s1 & E & Htr & _).
  exists tr. cbn [snd]. split.
  - now rewrite Htr, (eff_trace _ _ _ _ _ _ _ _ _ _ _ E).
  - exact (eff_pause _ _ _ _ _ _ _ _ _ _ _ E Hflag).
Qed.

Lemma huntLoop_break (r : Render) (length : Z) (it : Iteration)
    (rest : list Iteration) (l l' : Locals) (s s' : State) :
  aborted s = false ->
  iteration random randomUUID r length it l s = ((Break, l'), s') ->
  huntLoop random randomUUID r length (it :: rest) l s = ((Exited, l'), s').
Proof.
  unfold aborted. cbn [huntLoop signalAborted fst]. unfold bind at 1.
  cbn [signalAborted]. intros -> Hit. unfold bind. now rewrite Hit.
Qed.

Lemma huntLoop_after_stop (r : Render) (length : Z) (it : Iteration)
    (post pre : list Iteration) :
  duringFetch it = true \/ duringGap it = true ->
  forall (l : Locals) (s : State),
    abortController s <> None ->
    huntLoop random randomUUID r length (pre ++ it :: post) l s
    = huntLoop random randomUUID r length (pre ++ [it]) l s
    /\ fst (fst (huntLoop random randomUUID r length (pre ++ [it]) l s)) = Exited.
Proof.
  intros Hstop. induction pre as [|p pre IH]; intros l s Hctl.
  - cbn [app]. destruct (aborted s) eqn:Hab.
    + now rewrite !huntLoop_aborted by exact Hab.
    + assert (Hlive : abortController s = Some false).
      { unfold aborted in Hab. cbn in Hab.
        destruct (abortController s) as [[|]|]; congruence. }
      destruct (iteration random randomUUID r length it l s)
        as [[flow l1] s1] eqn:Hit.
      destruct (round_effect _ _ _ _ _ _ _ _ _ _ Hlive Hit) as (_ & _ & Hfired).
      specialize (Hfired Hstop). destruct flow.
      * rewrite !(huntLoop_continue _ _ _ _ _ _ _ _ _ _ Hab Hit).
        now rewrite !huntLoop_aborted by exact Hfired.
      * now rewrite !(huntLoop_break _ _ _ _ _ _ _ _ Hab Hit).
  - cbn [app]. destruct (aborted s) eqn:Hab.
    + now rewrite !huntLoop_aborted by exact Hab.
    + assert (Hlive : abortController s = Some false).
      { unfold aborted in Hab. cbn in Hab.
        destruct (abortController s) as [[|]|]; congruence. }
      destruct (iteration random randomUUID r length p l s)
        as [[flow l1] s1] eqn:Hit.
      destruct (round_effect _ _ _ _ _ _ _ _ _ _ Hlive Hit)
        as ((tr & fd & lg & E) & _ & _).
      destruct flow.
      * rewrite !(huntLoop_continue _ _ _ _ _ _ _ _ _ _ Hab Hit).
        apply IH. exact (eff_controller _ _ _ _ _ _ _ _ _ _ _ E Hctl).
      * now rewrite !(huntLoop_break _ _ _ _ _ _ _ _ Hab Hit).
Qed.

(** X7. Pressing Stop while a request is in flight, or during the gap
    after a round, ends the hunt: the loop is left, and what the
    environment would have done in later rounds makes no difference to
    the result. *)
Theorem stop_ends_the_hunt
    (r : Render) (length : Z) (pre post : list Iteration) (it : Iteration)
    (s : State) :
  duringFetch it = true \/ duringGap it = true ->
  huntUsernames random randomUUID r length (pre ++ it :: post) s
  = huntUsernames random randomUUID r length (pre ++ [it]) s
  /\ fst (fst (huntUsernames random randomUUID r length (pre ++ it :: post) s))
     = Exited.
Proof.
  intros Hstop. unfold huntUsernames, bind.
  destruct (huntPrologue randomUUID length s) as [l0 s0] eqn:Hpro.
  assert (Hctl : abortController s0 <> None).
  { cbn in Hpro. injection Hpro as <- <-. cbn. discriminate. }
  destruct (huntLoop_after_stop r length it post pre Hstop l0 s0 Hctl) as [-> Hex].
  split; [reflexivity|].
  destruct (huntLoop random randomUUID r length (pre ++ [it]) l0 s0)
    as [[out l1] s1].
  cbn [fst] in *. subst out. now destruct (huntEpilogue randomUUID s1).
Qed.

Lemma NoDup_map_injective {A B} (f : A -> B) (l : list A) :
  (forall x y, f x = f y -> x = y) -> NoDup l -> NoDup (map f l).
Proof.
  intros Hinj. induction 1 as [|x l Hx Hl IH]; cbn; constructor; [|exact IH].
  intros Hin. apply in_map_iff in Hin. destruct Hin as [y [Hy Hin]].
  apply Hinj in Hy. now subst.
Qed.

(** X8. When [crypto.randomUUID] never repeats, the entries of the log
    of a hunt have pairwise distinct ids. *)
Theorem log_ids_are_distinct
    (r : Render) (length : Z) (script : list Iteration) (s : State) :
  (forall i j, randomUUID i = randomUUID j -> i = j) ->
  NoDup (map id (logMessages
                   (snd (huntUsernames random randomUUID r length script s)))).
Proof.
  intros Hinj.
  destruct (huntUsernames random randomUUID r length script s)
    as [[out l] final] eqn:Hrun.
  destruct (hunt_effect _ _ _ _ _ _ _ _ _ Hrun)
    as (tr & fd & lg & s1 & E & _ & _ & Hlog & _).
  cbn [snd]. rewrite Hlog, (eff_log _ _ _ _ _ _ _ _ _ _ _ E), map_app.
  rewrite (eff_ids _ _ _ _ _ _ _ _ _ _ _ E).
  change (map id (logMessages (snd (huntPrologue randomUUID length s))))
    with (map randomUUID [uuidCalls s]).
  change (uuidCalls (snd (huntPrologue randomUUID length s)))
    with (S (uuidCalls s)).
  rewrite <- map_app.
  change ([uuidCalls s] ++ seq (S (uuidCalls s)) (List.length lg))%list
    with (seq (uuidCalls s) (S (List.length lg))).
  apply NoDup_map_injective; [exact Hinj | apply seq_NoDup].
Qed.

(** X9. Every name a hunt appends to the found list was requested in
    that hunt, and the "AVAILABLE" entries of its log are exactly the
    appended names, in the same order; no other entry has their type. *)
Theorem found_names_are_requested_and_announced
    (r : Render) (length : Z) (script : list Iteration) (s : State) :
  let final := snd (huntUsernames random randomUUID r length script s) in
  exists tr fd,
    trace final = (trace s ++ tr)%list
    /\ availableUsernames final = (availableUsernames s ++ fd)%list
    /\ Forall (fun e => In (String.append GITHUB_API_BASE_URL (username e))
                          (requests tr)) fd
    /\ map text (filter (fun m => isAccent (type m)) (logMessages final))
       = map (fun e => String.append "AVAILABLE: " (username e)) fd.
Proof.
  cbv zeta.
  destruct (huntUsernames random randomUUID r length script s)
    as [[out l] final] eqn:Hrun.
  destruct (hunt_effect _ _ _ _ _ _ _ _ _ Hrun)
    as (tr & fd & lg & s1 & E & Htr & Hfd & Hlog & _).
  cbn [snd]. exists tr, fd.
  split; [now rewrite Htr, (eff_trace _ _ _ _ _ _ _ _ _ _ _ E)|].
  split; [now rewrite Hfd, (eff_found _ _ _ _ _ _ _ _ _ _ _ E)|].
  split; [exact (eff_found_requested _ _ _ _ _ _ _ _ _ _ _ E)|].
  rewrite Hlog, (eff_log _ _ _ _ _ _ _ _ _ _ _ E), filter_app, map_app.
  rewrite (eff_announced _ _ _ _ _ _ _ _ _ _ _ E). reflexivity.
Qed.

End Hunts.


(** ** The check and the export *)

Section CheckAndExport.

Variable randomUUID : nat -> string.

(** X1. [checkUsernameAvailability] resolves to available exactly for
    status 404, taken exactly for 200, throttled exactly for 403 and 429,
    aborted exactly for a rejection named AbortError, and error
    otherwise; it logs one entry of type error exactly when it resolves
    to error, and touches neither the counters nor the found list. *)
Theorem check_result_and_log
    (name : string) (outcome : FetchOutcome) (stop : bool) (s : State) :
  let run := checkUsernameAvailability randomUUID name outcome stop s in
  let before := snd (suspended randomUUID stop s) in
  (fst run = r_available <-> outcome = Response 404)
  /\ (fst run = r_taken <-> outcome = Response 200)
  /\ (fst run = r_throttled <-> outcome = Response 403 \/ outcome = Response 429)
  /\ (fst run = r_aborted <-> exists message, outcome = Rejected "AbortError" message)
  /\ (exists added,
        logMessages (snd run) = (logMessages before ++ added)%list
        /\ map type added = if match fst run with r_error => true | _ => false end
                            then [error] else [])
  /\ stats (snd run) = stats s
  /\ availableUsernames (snd run) = availableUsernames s.
Proof.
  cbv zeta. unfold checkUsernameAvailability, bind.
  assert (Hframe : forall s0, stats (snd (suspended randomUUID stop s0)) = stats s0
             /\ availableUsernames (snd (suspended randomUUID stop s0))
                = availableUsernames s0).
  { intros s0. destruct stop; cbn; [|auto].
    unfold handleStopHunting, bind, abort. destruct (abortController s0); cbn; auto. }
  assert (Hlog : logMessages (snd (suspended randomUUID stop
                                     (snd (observe (EvFetch (GITHUB_API_BASE_URL ++ name)) s))))
                 = logMessages (snd (suspended randomUUID stop s))).
  { destruct stop; cbn; [|reflexivity].
    unfold handleStopHunting, bind, abort. destruct (abortController s); reflexivity. }
  destruct (Hframe (snd (observe (EvFetch (GITHUB_API_BASE_URL ++ name)) s)))
    as [Hst Hfd].
  destruct (observe (EvFetch (GITHUB_API_BASE_URL ++ name)) s) as [[] s0] eqn:Hobs.
  assert (Hs0 : stats s0 = stats s /\ availableUsernames s0 = availableUsernames s).
  { unfold observe in Hobs. injection Hobs as <-. now cbn. }
  cbn [snd] in *.
  destruct (suspended randomUUID stop s0) as [[] s1]. cbn [snd] in *.
  destruct Hs0 as [Hs0 Hf0].
  destruct outcome as [status|ename message].
  - destruct (Z.eqb_spec status 404) as [->|H404];
      [|destruct (Z.eqb_spec status 200) as [->|H200];
        [|destruct (Z.eqb_spec status 403) as [->|H403];
          [|destruct (Z.eqb_spec status 429) as [->|H429]]]];
      cbn; rewrite ?Hlog;
      (repeat split;
       try congruence; try discriminate; try (intros [? ?]; discriminate);
       try (intros [H|H]; congruence); auto;
       try (eexists; split; [symmetry; apply app_nil_r | reflexivity]);
       try (eexists; split; [reflexivity | reflexivity])).
  - destruct (String.eqb_spec ename "AbortError") as [->|Hname];
      cbn; rewrite ?Hlog;
      (repeat split;
       try congruence; try discriminate; try (intros [? ?]; congruence);
       try (intros [H|H]; congruence); eauto;
       try (eexists; split; [symmetry; apply app_nil_r | reflexivity]);
       try (eexists; split; [reflexivity | reflexivity])).
Qed.

Lemma downloadLine_no_newline (u : AvailableUsername) (c : ascii) :
  c = ascii_of_nat 10 ->
  ~ In c (chars (timestamp u)) -> ~ In c (chars (username u)) ->
  ~ In c (chars (downloadLine u)).
Proof.
  intros -> Ht Hu. unfold downloadLine. rewrite !chars_app, !in_app_iff.
  intros [H|[H|H]]; [tauto| |tauto].
  cbn in H. repeat (destruct H as [H|H]; [discriminate H|]). exact H.
Qed.

(** X10. For a non-empty found list whose timestamps and names hold no
    line feed, the file handed to the browser is named
    available-github-usernames.txt and has exactly one line per entry, in
    order: its text split at line feeds is the list of the entries'
    lines; one success entry is logged. *)
Theorem download_has_one_line_per_name
    (seen : list AvailableUsername) (s : State) :
  seen <> [] ->
  (forall u, In u seen ->
             ~ In (ascii_of_nat 10) (chars (timestamp u))
             /\ ~ In (ascii_of_nat 10) (chars (username u))) ->
  exists content,
    handleDownloadUsernames randomUUID seen s
    = (Some ("available-github-usernames.txt", content),
       snd (addLog randomUUID "Usernames file download initiated." success s))
    /\ JS.split (ascii_of_nat 10) content = map downloadLine seen.
Proof.
  intros Hne Hclean. unfold handleDownloadUsernames.
  destruct seen as [|u rest]; [congruence|].
  cbn [List.length Nat.eqb]. cbv zeta. unfold bind.
  destruct (addLog randomUUID "Usernames file download initiated." success s)
    as [[] s1]. cbn [ret snd].
  eexists. split; [reflexivity|].
  apply (split_concat (ascii_of_nat 10)); [discriminate|].
  intros p Hp. apply in_map_iff in Hp. destruct Hp as [v [<- Hv]].
  destruct (Hclean v Hv) as [Ht Hu].
  now apply downloadLine_no_newline.
Qed.

End CheckAndExport.

Lemma sampleUUID_injective (i j : nat) : sampleUUID i = sampleUUID j -> i = j.
Proof.
  unfold sampleUUID, JS.numberToString. intros H.
  cbn [String.append] in H. injection H as H.
  apply (f_equal NilZero.int_of_string) in H.
  assert (Hok : forall n, Z.to_int (Z.of_nat n) <> Decimal.Pos Decimal.Nil
                          /\ Z.to_int (Z.of_nat n) <> Decimal.Neg Decimal.Nil).
  { intros n. destruct (Z.of_nat n) as [|p|p]; cbn; split; try discriminate;
      intros [= Hp]; now apply (Unsigned.to_uint_nonnil p). }
  destruct (Hok i), (Hok j).
  rewrite !NilZero.isi in H by assumption.
  injection H as H. apply DecimalZ.to_int_inj in H. lia.
Qed.


Lemma no_long_pause_when_render_saw_flag_down_witness :
  let script := [undisturbed 403 "2024-05-01 10:00:00";
                 undisturbed 429 "2024-05-01 10:00:02";
                 undisturbed 404 "2024-05-01 10:00:04"] in
  seen_isThrottled (render initialState) = false
  /\ exists tr,
       trace (snd (huntUsernames sampleRandom sampleUUID (render initialState) 3
                     script initialState))
       = (trace initialState ++ tr)%list
       /\ ~ In (EvDelay 60000) tr.
Proof.
  cbv zeta. split; [reflexivity|].
  apply (no_long_pause_when_render_saw_flag_down sampleRandom sampleUUID
           (render initialState) 3).
  reflexivity.
Defined.

Lemma stop_ends_the_hunt_witness :
  let pre := [undisturbed 200 "2024-05-01 10:00:00"] in
  let it := mkIteration false (Response 404) false "2024-05-01 10:00:02" false true in
  let post := [undisturbed 404 "2024-05-01 10:00:04"] in
  (duringFetch it = true \/ duringGap it = true)
  /\ huntUsernames sampleRandom sampleUUID (render initialState) 3
       (pre ++ it :: post) initialState
     = huntUsernames sampleRandom sampleUUID (render initialState) 3
         (pre ++ [it]) initialState
  /\ fst (fst (huntUsernames sampleRandom sampleUUID (render initialState) 3
                 (pre ++ it :: post) initialState))
     = Exited.
Proof.
  cbv zeta. split; [right; reflexivity|].
  apply (stop_ends_the_hunt sampleRandom sampleUUID (render initialState) 3
           [undisturbed 200 "2024-05-01 10:00:00"]
           [undisturbed 404 "2024-05-01 10:00:04"]
           (mkIteration false (Response 404) false "2024-05-01 10:00:02" false true)
           initialState).
  right; reflexivity.
Defined.

Lemma log_ids_are_distinct_witness :
  (forall i j, sampleUUID i = sampleUUID j -> i = j)
  /\ NoDup (map id (logMessages
                      (snd (huntUsernames sampleRandom sampleUUID
                              (render initialState) 3
                              [undisturbed 500 "2024-05-01 10:00:00";
                               undisturbed 404 "2024-05-01 10:00:07"]
                              initialState)))).
Proof.
  split; [exact sampleUUID_injective|].
  apply (log_ids_are_distinct sampleRandom sampleUUID). exact sampleUUID_injective.
Defined.

Lemma download_has_one_line_per_name_witness :
  let seen := [mkAvailable "2024-05-01 10:00:00" "aej";
               mkAvailable "2024-05-01 10:00:02" "oty"] in
  seen <> []
  /\ (forall u, In u seen ->
                ~ In (ascii_of_nat 10) (chars (timestamp u))
                /\ ~ In (ascii_of_nat 10) (chars (username u)))
  /\ exists content,
       handleDownloadUsernames sampleUUID seen initialState
       = (Some ("available-github-usernames.txt", content),
          snd (addLog sampleUUID "Usernames file download initiated." success
                 initialState))
       /\ JS.split (ascii_of_nat 10) content = map downloadLine seen.
Proof.
  cbv zeta.
  assert (Hclean : forall u,
            In u [mkAvailable "2024-05-01 10:00:00" "aej";
                  mkAvailable "2024-05-01 10:00:02" "oty"] ->
            ~ In (ascii_of_nat 10) (chars (timestamp u))
            /\ ~ In (ascii_of_nat 10) (chars (username u))).
  { intros u [<-|[<-|[]]]; split; cbn; intros H;
      repeat (destruct H as [H|H]; [discriminate H|]); exact H. }
  split; [discriminate|]. split; [exact Hclean|].
  apply (download_has_one_line_per_name sampleUUID); [discriminate | exact Hclean].
Defined.

(** ** The alphabet as a set *)

Lemma chars_filterString_filter (p : ascii -> bool) (s : string) :
  chars (filterString p s) = filter p (chars s).
Proof.
  induction s as [|a s IH]; cbn; [reflexivity|].
  destruct (p a); cbn; unfold chars in IH; now rewrite IH.
Qed.

(** X11. No character occurs twice in the derived alphabet, which has
    between 26 and 36 characters; with digits allowed and none excluded
    it is the 26 letters followed by the 10 digits. *)
Theorem alphabet_is_duplicate_free (r : Render) :
  NoDup (chars (availableChars r))
  /\ 26 <= String.length (availableChars r) <= 36
  /\ (seen_excludeNumbers r = false ->
      excludedDigits (seen_specificNumbersToExclude r) = [] ->
      availableChars r = "abcdefghijklmnopqrstuvwxyz0123456789").
Proof.
  rewrite <- length_chars, availableChars_filter, chars_app.
  assert (Hlow : NoDup (chars lowercase)).
  { cbn. repeat (constructor; [cbn; intros H;
      repeat (destruct H as [H|H]; [discriminate H|]); exact H|]).
    constructor. }
  assert (Hdig : NoDup (chars digits)).
  { cbn. repeat (constructor; [cbn; intros H;
      repeat (destruct H as [H|H]; [discriminate H|]); exact H|]).
    constructor. }
  destruct (seen_excludeNumbers r).
  - cbn [chars list_ascii_of_string]. rewrite app_nil_r.
    split; [exact Hlow|]. split; [cbn; lia|discriminate].
  - rewrite chars_filterString_filter. split; [|split].
    + apply NoDup_app; [exact Hlow | now apply NoDup_filter |].
      intros c Hc Hd. apply filter_In in Hd. destruct Hd as [Hd _].
      apply lowercase_chars in Hc. apply digits_chars in Hd.
      apply lower_not_digit in Hc. congruence.
    + rewrite length_app.
      pose proof (filter_length_le (kept (excludedDigits (seen_specificNumbersToExclude r)))
                    (chars digits)) as Hle.
      change (List.length (chars lowercase)) with 26.
      change (List.length (chars digits)) with 10 in Hle. lia.
    + intros _ ->. reflexivity.
Qed.

Section Exclusions.

Variable random : nat -> Z.
Variable randomUUID : nat -> string.

(** X12. A digit that is a well-formed token of the exclusion input
    never occurs in a generated name. *)
Theorem excluded_digits_never_generated
    (r : Render) (length : Z) (s : State) (c : ascii) :
  In (String c EmptyString) (excludedDigits (seen_specificNumbersToExclude r)) ->
  ~ In c (chars (fst (generateUsername random randomUUID r length s))).
Proof.
  intros Hex Hin. rewrite generateUsername_run in Hin. cbn [fst] in Hin.
  apply drawn_chars, availableChars_chars in Hin.
  destruct (excludedDigits_single _ _ Hex) as [c' [[= <-] Hdigit]].
  destruct Hin as [Hlow|[_ [_ Hkept]]].
  - apply lower_not_digit in Hlow. congruence.
  - unfold kept in Hkept. apply negb_true_iff in Hkept.
    assert (Hyes : existsb (String.eqb (String c EmptyString))
                     (excludedDigits (seen_specificNumbersToExclude r)) = true).
    { apply existsb_exists. exists (String c EmptyString).
      split; [exact Hex | apply String.eqb_refl]. }
    congruence.
Qed.

End Exclusions.

Lemma excluded_digits_never_generated_witness :
  let r := mkRender "6" false " 7,x, 0 ,12" false in
  In (String "7" EmptyString) (excludedDigits (seen_specificNumbersToExclude r))
  /\ ~ In "7"%char
         (chars (fst (generateUsername sampleRandom sampleUUID r 6 initialState))).
Proof.
  cbv zeta.
  assert (H : In (String "7" EmptyString)
                (excludedDigits " 7,x, 0 ,12")) by (vm_compute; auto).
  split; [exact H|].
  exact (excluded_digits_never_generated sampleRandom sampleUUID
           (mkRender "6" false " 7,x, 0 ,12" false) 6 initialState "7" H).
Defined.
